(** * Aurora executor: periodic health monitor and executor life cycle

    A shallow embedding of
    [src/python/twitter/aurora/executor/common/health_checker.py]
    ([HealthCheckerThread]) together with a transition-system model of the
    task executor whose behaviour is exercised by
    [tests/python/twitter/mesos/executor/test_thermos_executor.py].

    Conventions of the embedding.
    - Python integers are unbounded, so seconds and counters are [Z].
    - A health check returns a pair [(is_healthy, reason)]; the reason is
      [None] or a message, modelled as [option string].
    - The injected [health_checker] callable is an oracle: its [i]-th
      invocation returns [checker i].  The number of invocations made so far
      and the durations handed to [clock.sleep] are recorded in a [World]
      that is threaded through every operation that touches them.
    - [threading.Event] is a boolean that can only be set. *)

From Stdlib Require Import ZArith List String Bool Lia.
Import ListNotations.
Open Scope Z_scope.

Module HealthChecker.

(** ** Data *)

Definition Reason : Type := option string.
Definition CheckResult : Type := (bool * Reason)%type.
Definition Checker : Type := nat -> CheckResult.

Record World : Type := mkWorld {
  checker_calls : nat;      (* invocations of the checker so far *)
  slept : list Z            (* arguments of clock.sleep, oldest first *)
}.

Definition fresh_world : World := mkWorld 0 [].

Record HealthCheckerThread : Type := mkThread {
  _checker : Checker;
  _interval : Z;
  _initial_interval : Z;
  _current_consecutive_failures : Z;
  _max_consecutive_failures : Z;
  _dead : bool;
  _healthy : bool;
  _reason : Reason
}.

(** [self._checker()] : one invocation, counted in the world. *)
Definition call_checker (c : Checker) (w : World) : CheckResult * World :=
  (c (checker_calls w), mkWorld (S (checker_calls w)) (slept w)).

(** [self._clock.sleep(d)] *)
Definition clock_sleep (d : Z) (w : World) : World :=
  mkWorld (checker_calls w) (slept w ++ [d]).

(** ** [HealthCheckerThread.__init__] (lines 16-37) *)
Definition __init__ (health_checker : Checker) (interval_secs : Z)
    (initial_interval_secs : option Z) (max_consecutive_failures : Z)
    (w : World) : HealthCheckerThread * World :=
  let initial_interval :=
    match initial_interval_secs with
    | Some v => v
    | None => interval_secs * 2
    end in
  let '(verdict, w') :=
    if initial_interval >? 0 then ((true, None), w)
    else call_checker health_checker w in
  (mkThread health_checker interval_secs initial_interval 0
            max_consecutive_failures false (fst verdict) (snd verdict), w').

(** ** Properties [healthy] and [failure_reason] (lines 39-46) *)
Definition healthy (self : HealthCheckerThread) : bool := _healthy self.

(** Modelled from the spec: the class [FailureReason] is imported from
    [health_interface], which is not among the sources; the spec only says
    the query yields "a formatted reason string", so it is a wrapper around
    the formatted text. *)
Inductive FailureReason : Type := mkFailureReason (text : string).

(** ['%s' % x] for [x] being [None] or a string. *)
Definition percent_s (r : Reason) : string :=
  match r with
  | None => "None"%string
  | Some s => s
  end.

Definition failure_reason (self : HealthCheckerThread) : option FailureReason :=
  if negb (healthy self) then
    Some (mkFailureReason ("Failed health check! " ++ percent_s (_reason self)))
  else None.

(** ** [_maybe_update_failure_count] (lines 54-61) *)
Definition set_failures (self : HealthCheckerThread) (n : Z) : HealthCheckerThread :=
  mkThread (_checker self) (_interval self) (_initial_interval self) n
           (_max_consecutive_failures self) (_dead self) (_healthy self)
           (_reason self).

Definition set_verdict (self : HealthCheckerThread) (h : bool) (r : Reason)
  : HealthCheckerThread :=
  mkThread (_checker self) (_interval self) (_initial_interval self)
           (_current_consecutive_failures self)
           (_max_consecutive_failures self) (_dead self) h r.

Definition _maybe_update_failure_count (self : HealthCheckerThread)
    (is_healthy : bool) (reason : Reason) : HealthCheckerThread :=
  if negb is_healthy then
    let self1 := set_failures self (_current_consecutive_failures self + 1) in
    if _current_consecutive_failures self1 >? _max_consecutive_failures self1
    then set_verdict self1 false reason
    else self1
  else set_failures self 0.

(** ** [stop] (lines 67-68) *)
Definition stop (self : HealthCheckerThread) : HealthCheckerThread :=
  mkThread (_checker self) (_interval self) (_initial_interval self)
           (_current_consecutive_failures self)
           (_max_consecutive_failures self) true (_healthy self)
           (_reason self).

(** ** [run] (lines 48-52) as a small-step machine

    The thread executing [run] is at one of six places.  [AtCall] means the
    loop condition has been found true and the checker has not been entered
    yet; [InCheck i] means the [i]-th invocation of the checker has been
    entered and has not returned yet.  Other threads may call [stop] while
    the machine rests at any of these places. *)
Inductive PC : Type :=
| AtInitialSleep          (* about to execute line 49 *)
| AtLoopTest              (* about to evaluate the loop condition, line 50 *)
| AtCall                  (* about to invoke self._checker(), line 51 *)
| InCheck (i : nat)       (* inside self._checker(), line 51 *)
| AtSleep                 (* about to execute line 52 *)
| Exited.                 (* run has returned *)

Record Machine : Type := mkMachine {
  self : HealthCheckerThread;
  world : World;
  pc : PC
}.

(** [start]: the freshly constructed object begins to execute [run]. *)
Definition start (s : HealthCheckerThread) (w : World) : Machine :=
  mkMachine s w AtInitialSleep.

Definition thread_step (m : Machine) : Machine :=
  match pc m with
  | AtInitialSleep =>
      mkMachine (self m) (clock_sleep (_initial_interval (self m)) (world m))
                AtLoopTest
  | AtLoopTest =>
      if _dead (self m) then mkMachine (self m) (world m) Exited
      else mkMachine (self m) (world m) AtCall
  | AtCall =>
      mkMachine (self m) (snd (call_checker (_checker (self m)) (world m)))
                (InCheck (checker_calls (world m)))
  | InCheck i =>
      let r := _checker (self m) i in
      mkMachine (_maybe_update_failure_count (self m) (fst r) (snd r))
                (world m) AtSleep
  | AtSleep =>
      mkMachine (self m) (clock_sleep (_interval (self m)) (world m)) AtLoopTest
  | Exited => m
  end.

(** A call of [stop] by another thread. *)
Definition stop_machine (m : Machine) : Machine :=
  mkMachine (stop (self m)) (world m) (pc m).

Inductive Event : Type :=
| Step      (* the monitor thread advances by one place *)
| Stop.     (* somebody calls stop() *)

Definition apply_event (m : Machine) (e : Event) : Machine :=
  match e with
  | Step => thread_step m
  | Stop => stop_machine m
  end.

Definition exec (es : list Event) (m : Machine) : Machine :=
  fold_left apply_event es m.

(** Feeding a list of check results to the update routine, in order; this
    is what consecutive loop iterations do to the object. *)
Definition feed (self : HealthCheckerThread) (rs : list CheckResult)
  : HealthCheckerThread :=
  fold_left (fun s r => _maybe_update_failure_count s (fst r) (snd r)) rs self.

(** An unhealthy result carrying reason [r]. *)
Definition failure (r : Reason) : CheckResult := (false, r).

Definition unhealthy (r : CheckResult) : Prop := fst r = false.

(** The results [rs] contain [N + 1] unhealthy results in a row. *)
Definition failure_window (N : Z) (rs : list CheckResult) : Prop :=
  exists pre fs post,
    rs = pre ++ fs ++ post /\ Forall unhealthy fs /\
    Z.of_nat (List.length fs) = N + 1.

(** A run of failures that starts the list, long enough to push a counter
    standing at [c] beyond [N]. *)
Definition leading_run (N c : Z) (rs : list CheckResult) : Prop :=
  exists fs post,
    rs = fs ++ post /\ Forall unhealthy fs /\
    N + 1 <= Z.of_nat (List.length fs) + c.

(** The reason carried by the last result of a list. *)
Definition last_reason (rs : list CheckResult) : Reason :=
  snd (last rs (true, None)).

(** Places the thread of [run] still has to pass before it has returned,
    once the dead signal is set. *)
Definition distance_to_exit (p : PC) : nat :=
  match p with
  | AtInitialSleep => 2
  | AtLoopTest => 1
  | AtCall => 4
  | InCheck _ => 3
  | AtSleep => 2
  | Exited => 0
  end.

(** Invocations of the checker the thread is already committed to: the loop
    condition was evaluated before the signal could be seen. *)
Definition committed_calls (p : PC) : nat :=
  match p with
  | AtCall => 1
  | _ => 0
  end.

(** Number of moves of the monitor thread in a schedule. *)
Definition steps_in (es : list Event) : nat :=
  List.length (filter (fun e => match e with Step => true | Stop => false end) es).

(** The fields of the object that neither a check nor [stop] may touch. *)
Definition same_configuration (a b : HealthCheckerThread) : Prop :=
  _checker a = _checker b /\ _interval a = _interval b /\
  _initial_interval a = _initial_interval b /\
  _max_consecutive_failures a = _max_consecutive_failures b.

End HealthChecker.

(** * The task executor

    [ThermosExecutor], [StatusManager] and [TaskRunnerWrapper] are exercised
    by [test_thermos_executor.py] but their code is not part of the sources
    at hand, so the executor is modelled from section 4.2 of the
    specification as a labelled transition system.  The driver is the
    [ProxyDriver] of the tests: it records every [sendStatusUpdate] and
    every [stop]. *)
Module Executor.

Inductive Status : Type :=
| STARTING | RUNNING | FINISHED | FAILED | KILLED | LOST.

Definition is_terminal (s : Status) : bool :=
  match s with
  | STARTING | RUNNING => false
  | FINISHED | FAILED | KILLED | LOST => true
  end.

Definition Status_eqb (a b : Status) : bool :=
  match a, b with
  | STARTING, STARTING | RUNNING, RUNNING | FINISHED, FINISHED
  | FAILED, FAILED | KILLED, KILLED | LOST, LOST => true
  | _, _ => false
  end.

(** Modelled from the spec: the states of the diagram of section 4.2
    ([ThermosExecutor] is missing); [TERMINATED] stands for the four
    terminal states, the reported one being the last entry of the log. *)
Inductive Phase : Type :=
| NEW | INITIALIZING | STARTED | TERMINATED.

(** Modelled from the spec: what the missing [TaskRunnerWrapper] does when
    the initialization thread runs [initialize()] and then [start()]. *)
Inductive InitOutcome : Type :=
| InitializeRaises     (* initialize() raises TaskError *)
| StartRaises          (* initialize() returns, start() raises TaskError *)
| StartReturns.        (* initialize() and start() both return *)

(** Modelled from the spec: the end of the runner as the missing
    [StatusManager] observes it. *)
Inductive RunnerEnd : Type :=
| CleanExit            (* normal process exit with success *)
| KilledByRequest      (* explicit kill delivered *)
| Vanished             (* process gone without an observed clean exit *)
| RunnerError.         (* runner-reported error *)

(** Modelled from the spec: the mapping policy of the missing
    [StatusManager]. *)
Definition map_end (e : RunnerEnd) : Status :=
  match e with
  | CleanExit => FINISHED
  | KilledByRequest => KILLED
  | Vanished => LOST
  | RunnerError => FAILED
  end.

(** Modelled from the spec: the state of the missing [ThermosExecutor]
    together with the recording driver of the tests. *)
Record Executor : Type := mkExecutor {
  phase : Phase;
  _abort_runner : bool;        (* the abort flag *)
  kill_forwarded : bool;       (* the one-shot "kill already forwarded" flag *)
  kills_delivered : nat;       (* kill requests that reached the runner *)
  updates : list Status;       (* sendStatusUpdate calls, oldest first *)
  stops : nat                  (* driver.stop() calls *)
}.

Definition fresh : Executor := mkExecutor NEW false false 0 [] 0.

Inductive Event : Type :=
| launchTask
| killTask
| shutdown
| AbortCheckpoint                 (* the initialization polls the abort flag *)
| InitEnds (o : InitOutcome)      (* the initialization thread finishes *)
| RunnerEnds (e : RunnerEnd).     (* the status manager sees the runner end *)

(** Modelled from the spec: the status reporter of the missing executor,
    one driver notification per call. *)
Definition send_update (x : Executor) (s : Status) : Executor :=
  mkExecutor (phase x) (_abort_runner x) (kill_forwarded x) (kills_delivered x)
             (updates x ++ [s]) (stops x).

(** Modelled from the spec: reporting a terminal status and signalling the
    driver to stop, in the missing executor and status manager. *)
Definition terminate (x : Executor) (s : Status) : Executor :=
  mkExecutor TERMINATED (_abort_runner x) (kill_forwarded x) (kills_delivered x)
             (updates x ++ [s]) (S (stops x)).

Definition set_phase (x : Executor) (p : Phase) : Executor :=
  mkExecutor p (_abort_runner x) (kill_forwarded x) (kills_delivered x)
             (updates x) (stops x).

(** Modelled from the spec: [killTask] of the missing [ThermosExecutor].
    Before initialization has completed it sets the abort flag; on a running
    task it forwards one kill to the runner, gated by the one-shot flag;
    once a terminal status has been reported there is nothing left to do. *)
Definition do_kill (x : Executor) : Executor :=
  match phase x with
  | NEW | INITIALIZING =>
      mkExecutor (phase x) true (kill_forwarded x) (kills_delivered x)
                 (updates x) (stops x)
  | STARTED =>
      if kill_forwarded x then x
      else mkExecutor (phase x) (_abort_runner x) true (S (kills_delivered x))
                      (updates x) (stops x)
  | TERMINATED => x
  end.

(** Modelled from the spec: one transition of the missing executor
    (section 4.2).  [None] means the event cannot happen in that state: the
    initialization thread exists only while [INITIALIZING], the status
    manager only while [STARTED]. *)
Definition step (x : Executor) (e : Event) : option Executor :=
  match e with
  | launchTask =>
      match phase x with
      | NEW => Some (set_phase (send_update x STARTING) INITIALIZING)
      | _ => Some x                      (* a second launch is ignored *)
      end
  | killTask | shutdown => Some (do_kill x)
  | AbortCheckpoint =>
      match phase x with
      | INITIALIZING =>
          Some (if _abort_runner x then terminate x KILLED else x)
      | _ => None
      end
  | InitEnds o =>
      match phase x with
      | INITIALIZING =>
          match o with
          | InitializeRaises => Some (terminate x FAILED)
          | StartRaises =>
              Some (if _abort_runner x then terminate x KILLED
                    else terminate x FAILED)
          | StartReturns =>
              Some (if _abort_runner x then terminate x KILLED
                    else set_phase (send_update x RUNNING) STARTED)
          end
      | _ => None
      end
  | RunnerEnds e =>
      match phase x with
      | STARTED =>
          Some (terminate x (if kill_forwarded x then KILLED else map_end e))
      | _ => None
      end
  end.

(** Running a schedule of events; [None] if some event is not enabled. *)
Fixpoint run (es : list Event) (x : Executor) : option Executor :=
  match es with
  | [] => Some x
  | e :: es' =>
      match step x e with
      | Some x' => run es' x'
      | None => None
      end
  end.

(** [l] is an initial segment of [m]. *)
Definition Prefix (l m : list Status) : Prop := exists rest, m = l ++ rest.

Definition terminal_count (l : list Status) : nat :=
  List.length (filter is_terminal l).

Definition is_launch_or_kill (e : Event) : bool :=
  match e with
  | launchTask | killTask | shutdown => true
  | _ => false
  end.

Definition is_runner_end (e : Event) : bool :=
  match e with
  | RunnerEnds _ => true
  | _ => false
  end.



(** What the driver has been told, phase by phase. *)
Definition consistent (x : Executor) : Prop :=
  match phase x with
  | NEW => updates x = [] /\ stops x = 0%nat
  | INITIALIZING => updates x = [STARTING] /\ stops x = 0%nat
  | STARTED => updates x = [STARTING; RUNNING] /\ stops x = 0%nat
  | TERMINATED =>
      (exists t, is_terminal t = true /\
                 (updates x = [STARTING; t] \/ updates x = [STARTING; RUNNING; t]))
      /\ stops x = 1%nat
  end.

(** The one-shot gate of kill forwarding. *)
Definition kill_gate (x : Executor) : Prop :=
  kills_delivered x = (if kill_forwarded x then 1%nat else 0%nat).

End Executor.

(** * Further vocabulary for the health monitor *)
Module HealthCheckerRuns.
Import HealthChecker.

Definition is_unhealthy (r : CheckResult) : bool := negb (fst r).

(** Number of unhealthy results [rs] begins with. *)
Fixpoint leading_failures (rs : list CheckResult) : nat :=
  match rs with
  | [] => 0
  | r :: rs' => if is_unhealthy r then S (leading_failures rs') else 0
  end.

(** Number of unhealthy results [rs] ends with. *)
Definition trailing_failures (rs : list CheckResult) : nat :=
  leading_failures (rev rs).

Definition is_stop (e : Event) : bool :=
  match e with
  | Stop => true
  | Step => false
  end.

(** The schedule in which the monitor thread makes [n] moves and nobody
    interferes. *)
Definition undisturbed (n : nat) : list Event := repeat Step n.

(** The results of the [k] invocations of [c] that follow the first [n]. *)
Definition results_from (c : Checker) (n k : nat) : list CheckResult :=
  map c (seq n k).

(** A monitor and the world in which it was constructed, ready to run. *)
Definition launch (c : Checker) (interval_secs : Z)
    (initial_interval_secs : option Z) (max_failures : Z) (w : World)
  : Machine :=
  let r := __init__ c interval_secs initial_interval_secs max_failures w in
  start (fst r) (snd r).

End HealthCheckerRuns.

(** * The recording driver of the executor tests

    [ProxyDriver] (test_thermos_executor.py, lines 94-106).  The dictionary
    [method_calls] is a [defaultdict(list)]: a key is created, with an empty
    list, the first time it is looked up.  It is kept as an association
    list with one entry per key; every call record [(args, kw)] is a value
    of an arbitrary type [Call]. *)
Module ProxyDriver.

Section Recording.
Context {Call : Type}.

Definition Dict : Type := list (string * list Call).

(** [d[k]] for reading: the list stored under [k], empty if there is none. *)
Fixpoint getitem (d : Dict) (k : string) : list Call :=
  match d with
  | [] => []
  | (k', v) :: d' => if String.eqb k k' then v else getitem d' k
  end.

(** [d[k].append(c)]: the key is created if it is missing. *)
Fixpoint append_to (d : Dict) (k : string) (c : Call) : Dict :=
  match d with
  | [] => [(k, [c])]
  | (k', v) :: d' =>
      if String.eqb k k' then (k', v ++ [c]) :: d'
      else (k', v) :: append_to d' k c
  end.

Definition keys (d : Dict) : list string := map fst d.

Record ProxyDriver : Type := mkProxyDriver {
  method_calls : Dict;
  _stop_event : bool
}.

(** [ProxyDriver.__init__] (lines 95-97) *)
Definition __init__ : ProxyDriver := mkProxyDriver [] false.

(** [ProxyDriver.__getattr__] (lines 99-102): the closure it returns, applied
    to one call record. *)
Definition __getattr__ (attr : string) (self : ProxyDriver) (c : Call)
  : ProxyDriver :=
  mkProxyDriver (append_to (method_calls self) attr c) (_stop_event self).

(** [ProxyDriver.stop] (lines 104-106) *)
Definition stop (self : ProxyDriver) (c : Call) : ProxyDriver :=
  mkProxyDriver (append_to (method_calls self) "stop" c) true.

(** What can be done to a driver: the method [stop] is called, or the closure
    that [__getattr__ attr] returns is called.  Python routes
    [driver.name(...)] to the latter for every [name] the object does not
    define itself. *)
Inductive Invocation : Type :=
| CallStop (c : Call)
| CallOther (attr : string) (c : Call).

Definition invoke (self : ProxyDriver) (i : Invocation) : ProxyDriver :=
  match i with
  | CallStop c => stop self c
  | CallOther attr c => __getattr__ attr self c
  end.

Definition invoke_all (ivs : list Invocation) (self : ProxyDriver) : ProxyDriver :=
  fold_left invoke ivs self.

(** The key under which an invocation is recorded, and its record. *)
Definition recorded_under (i : Invocation) : string :=
  match i with
  | CallStop _ => "stop"
  | CallOther attr _ => attr
  end.

Definition record_of (i : Invocation) : Call :=
  match i with
  | CallStop c => c
  | CallOther _ c => c
  end.

Definition is_call_stop (i : Invocation) : bool :=
  match i with
  | CallStop _ => true
  | CallOther _ _ => false
  end.

(** The records of the invocations [ivs] that go under [k], in order. *)
Definition records_under (k : string) (ivs : list Invocation) : list Call :=
  map record_of (filter (fun i => String.eqb k (recorded_under i)) ivs).

End Recording.

Arguments Dict : clear implicits.
Arguments ProxyDriver : clear implicits.
Arguments Invocation : clear implicits.

End ProxyDriver.

(** * The slow runner of the executor tests

    [SlowInitializingTaskRunner] (test_thermos_executor.py, lines 82-91).
    Only what the class itself defines is modelled: the attribute
    [is_initialized] that shadows the inherited method, the two events, and
    [initialize], which blocks until [_init_start] is set. *)
Module SlowRunner.

(** Where the thread that runs [initialize] is. *)
Inductive Place : Type :=
| NotCalled        (* initialize() has not been called *)
| Waiting          (* in self._init_start.wait(), line 89 *)
| Marking          (* about to rebind self.is_initialized, line 90 *)
| Signalling       (* about to execute self._init_done.set(), line 91 *)
| Returned.        (* initialize() has returned *)

Record SlowInitializingTaskRunner : Type := mkRunner {
  is_initialized : bool;      (* what the bound lambda returns *)
  _init_start : bool;
  _init_done : bool;
  place : Place
}.

(** [__init__] (lines 83-87), after the inherited constructor. *)
Definition __init__ : SlowInitializingTaskRunner :=
  mkRunner false false false NotCalled.

Inductive Action : Type :=
| CallInitialize     (* some thread calls initialize() *)
| Advance            (* that thread makes one move *)
| SetInitStart.      (* the test executes _init_start.set() *)

Definition act (r : SlowInitializingTaskRunner) (a : Action)
  : SlowInitializingTaskRunner :=
  match a with
  | CallInitialize =>
      match place r with
      | NotCalled =>
          mkRunner (is_initialized r) (_init_start r) (_init_done r) Waiting
      | _ => r
      end
  | Advance =>
      match place r with
      | NotCalled => r
      | Waiting =>
          if _init_start r
          then mkRunner (is_initialized r) (_init_start r) (_init_done r) Marking
          else r                               (* still blocked in wait() *)
      | Marking => mkRunner true (_init_start r) (_init_done r) Signalling
      | Signalling => mkRunner (is_initialized r) (_init_start r) true Returned
      | Returned => r
      end
  | SetInitStart =>
      mkRunner (is_initialized r) true (_init_done r) (place r)
  end.

Definition perform (acts : list Action) (r : SlowInitializingTaskRunner)
  : SlowInitializingTaskRunner :=
  fold_left act acts r.

Definition is_set_init_start (a : Action) : bool :=
  match a with
  | SetInitStart => true
  | _ => false
  end.

Definition is_advance (a : Action) : bool :=
  match a with
  | Advance => true
  | _ => false
  end.

Definition advances (acts : list Action) : nat :=
  List.length (filter is_advance acts).

(** Moves [initialize] still has to make once [_init_start] is set. *)
Definition remaining (p : Place) : nat :=
  match p with
  | NotCalled => 0
  | Waiting => 3
  | Marking => 2
  | Signalling => 1
  | Returned => 0
  end.

End SlowRunner.


(** * Properties of the health monitor *)
Module HealthCheckerFacts.
Import HealthChecker.

(** ** Elementary facts about the update routine *)

Lemma update_on_healthy (s : HealthCheckerThread) (r : Reason) :
  _maybe_update_failure_count s true r = set_failures s 0.
Proof. reflexivity. Qed.

Lemma update_on_failure (s : HealthCheckerThread) (r : Reason) :
  _maybe_update_failure_count s false r =
  if _current_consecutive_failures s + 1 >? _max_consecutive_failures s
  then set_verdict (set_failures s (_current_consecutive_failures s + 1)) false r
  else set_failures s (_current_consecutive_failures s + 1).
Proof. reflexivity. Qed.

Lemma update_max (s : HealthCheckerThread) (h : bool) (r : Reason) :
  _max_consecutive_failures (_maybe_update_failure_count s h r) =
  _max_consecutive_failures s.
Proof.
  destruct h; [reflexivity|].
  rewrite update_on_failure.
  destruct (_ >? _); reflexivity.
Qed.

Lemma update_dead (s : HealthCheckerThread) (h : bool) (r : Reason) :
  _dead (_maybe_update_failure_count s h r) = _dead s.
Proof.
  destruct h; [reflexivity|].
  rewrite update_on_failure.
  destruct (_ >? _); reflexivity.
Qed.

Lemma update_counter (s : HealthCheckerThread) (h : bool) (r : Reason) :
  _current_consecutive_failures (_maybe_update_failure_count s h r) =
  if h then 0 else _current_consecutive_failures s + 1.
Proof.
  destruct h; [reflexivity|].
  rewrite update_on_failure.
  destruct (_ >? _); reflexivity.
Qed.

Lemma update_keeps_unhealthy (s : HealthCheckerThread) (h : bool) (r : Reason) :
  _healthy s = false -> _healthy (_maybe_update_failure_count s h r) = false.
Proof.
  intros Hs. destruct h; [exact Hs|].
  rewrite update_on_failure.
  destruct (_ >? _); [reflexivity | exact Hs].
Qed.

Lemma update_counter_nonneg (s : HealthCheckerThread) (h : bool) (r : Reason) :
  0 <= _current_consecutive_failures s ->
  0 <= _current_consecutive_failures (_maybe_update_failure_count s h r).
Proof. intros H. rewrite update_counter. destruct h; lia. Qed.

Lemma feed_cons (s : HealthCheckerThread) (r : CheckResult) (rs : list CheckResult) :
  feed s (r :: rs) = feed (_maybe_update_failure_count s (fst r) (snd r)) rs.
Proof. reflexivity. Qed.

Lemma feed_app (s : HealthCheckerThread) (rs1 rs2 : list CheckResult) :
  feed s (rs1 ++ rs2) = feed (feed s rs1) rs2.
Proof. unfold feed. apply fold_left_app. Qed.

Lemma feed_max (rs : list CheckResult) :
  forall s, _max_consecutive_failures (feed s rs) = _max_consecutive_failures s.
Proof.
  induction rs as [|r rs IH]; intros s; [reflexivity|].
  rewrite feed_cons, IH. apply update_max.
Qed.

Lemma feed_keeps_unhealthy (rs : list CheckResult) :
  forall s, _healthy s = false -> _healthy (feed s rs) = false.
Proof.
  induction rs as [|r rs IH]; intros s Hs; [exact Hs|].
  rewrite feed_cons. apply IH. now apply update_keeps_unhealthy.
Qed.

Lemma feed_counter_nonneg (rs : list CheckResult) :
  forall s, 0 <= _current_consecutive_failures s ->
            0 <= _current_consecutive_failures (feed s rs).
Proof.
  induction rs as [|r rs IH]; intros s Hs; [exact Hs|].
  rewrite feed_cons. apply IH. now apply update_counter_nonneg.
Qed.

(** ** The failure threshold *)

Lemma window_cons (N : Z) (r : CheckResult) (rs : list CheckResult) :
  failure_window N rs -> failure_window N (r :: rs).
Proof.
  intros (pre & fs & post & -> & Hfs & Hlen).
  exists (r :: pre), fs, post. auto.
Qed.

Lemma leading_run_window (N : Z) (rs : list CheckResult) :
  0 <= N -> leading_run N 0 rs -> failure_window N rs.
Proof.
  intros HN (fs & post & -> & Hfs & Hlen).
  exists [], (firstn (Z.to_nat (N + 1)) fs), (skipn (Z.to_nat (N + 1)) fs ++ post).
  split; [|split].
  - simpl. rewrite app_assoc, firstn_skipn. reflexivity.
  - rewrite <- (firstn_skipn (Z.to_nat (N + 1)) fs) in Hfs.
    apply Forall_app in Hfs. tauto.
  - rewrite length_firstn. lia.
Qed.

Lemma no_leading_run_nil (N c : Z) : c <= N -> ~ leading_run N c [].
Proof.
  intros Hc (fs & post & Heq & _ & Hlen).
  symmetry in Heq. apply app_eq_nil in Heq. destruct Heq as [-> _].
  cbn [List.length] in Hlen. lia.
Qed.

Lemma no_window_nil (N : Z) : 0 <= N -> ~ failure_window N [].
Proof.
  intros HN (pre & fs & post & Heq & _ & Hlen).
  symmetry in Heq. apply app_eq_nil in Heq. destruct Heq as [_ Heq].
  apply app_eq_nil in Heq. destruct Heq as [-> _].
  simpl in Hlen. lia.
Qed.

(** What a leading run of [r :: rs] says about [rs]. *)
Lemma leading_run_cons_inv (N c : Z) (r : CheckResult) (rs : list CheckResult) :
  c <= N -> leading_run N c (r :: rs) ->
  unhealthy r /\ leading_run N (c + 1) rs.
Proof.
  intros Hc (fs & post & Heq & Hfs & Hlen).
  destruct fs as [|x fs]; [simpl in Hlen; lia|].
  simpl in Heq. injection Heq as <- ->.
  inversion Hfs as [|? ? Hx Hrest]; subst.
  split; [exact Hx|].
  exists fs, post. repeat split; auto.
  change (List.length (r :: fs)) with (S (List.length fs)) in Hlen. lia.
Qed.

(** What a window of [r :: rs] says about [rs]. *)
Lemma window_cons_inv (N : Z) (r : CheckResult) (rs : list CheckResult) :
  0 <= N -> failure_window N (r :: rs) ->
  (unhealthy r /\ leading_run N 1 rs) \/ failure_window N rs.
Proof.
  intros HN (pre & fs & post & Heq & Hfs & Hlen).
  destruct pre as [|p pre].
  - destruct fs as [|x fs]; [simpl in Hlen; lia|].
    simpl in Heq. injection Heq as <- ->.
    inversion Hfs as [|? ? Hx Hrest]; subst.
    left. split; [exact Hx|].
    exists fs, post. repeat split; auto.
    change (List.length (r :: fs)) with (S (List.length fs)) in Hlen. lia.
  - simpl in Heq. injection Heq as <- ->.
    right. exists pre, fs, post. auto.
Qed.

Lemma leading_run_weaken (N c d : Z) (rs : list CheckResult) :
  c <= d -> leading_run N c rs -> leading_run N d rs.
Proof.
  intros Hcd (fs & post & Heq & Hfs & Hlen).
  exists fs, post. repeat split; auto. lia.
Qed.

Lemma leading_run_cons (N c : Z) (r : CheckResult) (rs : list CheckResult) :
  unhealthy r -> leading_run N (c + 1) rs -> leading_run N c (r :: rs).
Proof.
  intros Hr (fs & post & -> & Hfs & Hlen).
  exists (r :: fs), post. repeat split; auto.
  change (List.length (r :: fs)) with (S (List.length fs)). lia.
Qed.

(** The verdict after any sequence of results, from a healthy object whose
    counter stands at [c]. *)
Lemma feed_verdict (rs : list CheckResult) :
  forall (s : HealthCheckerThread) (N : Z),
    _max_consecutive_failures s = N ->
    0 <= _current_consecutive_failures s <= N ->
    _healthy s = true ->
    (_healthy (feed s rs) = false <->
     leading_run N (_current_consecutive_failures s) rs \/ failure_window N rs).
Proof.
  induction rs as [|[h rr] rs IH]; intros s N HN Hc Hs.
  - simpl. rewrite Hs. split; [discriminate|].
    intros [H|H]; exfalso.
    + revert H. apply no_leading_run_nil. lia.
    + revert H. apply no_window_nil. lia.
  - rewrite feed_cons. cbn [fst snd]. destruct h.
    + (* a healthy result: the counter restarts from zero *)
      rewrite update_on_healthy.
      rewrite (IH (set_failures s 0) N); [|exact HN|simpl; lia|exact Hs].
      cbn [set_failures _current_consecutive_failures].
      split.
      * intros [H|H]; right; apply window_cons;
          [apply leading_run_window; [lia|exact H] | exact H].
      * intros [H|H].
        -- apply leading_run_cons_inv in H; [|lia].
           destruct H as [H _]. discriminate H.
        -- apply window_cons_inv in H; [|lia].
           destruct H as [[H _]|H]; [discriminate H | now right].
    + (* an unhealthy result *)
      rewrite update_on_failure, HN.
      destruct (Z.gtb_spec (_current_consecutive_failures s + 1) N) as [Hgt|Hle].
      * split; [intros _ | intros _; now apply feed_keeps_unhealthy].
        left. exists [(false, rr)], rs. repeat split.
        -- constructor; [reflexivity | constructor].
        -- cbn [List.length]. lia.
      * rewrite (IH (set_failures s (_current_consecutive_failures s + 1)) N);
          [|exact HN|simpl; lia|exact Hs].
        cbn [set_failures _current_consecutive_failures].
        split.
        -- intros [H|H]; [left | right; now apply window_cons].
           apply leading_run_cons; [reflexivity | exact H].
        -- intros [H|H].
           ++ left. apply leading_run_cons_inv in H; [tauto | lia].
           ++ apply window_cons_inv in H; [|lia].
              destruct H as [[_ H]|H]; [left | now right].
              eapply leading_run_weaken; [|exact H]. lia.
Qed.

Lemma window_length (N : Z) (rs : list CheckResult) :
  failure_window N rs -> N + 1 <= Z.of_nat (List.length rs).
Proof.
  intros (pre & fs & post & -> & _ & Hlen).
  rewrite !length_app. lia.
Qed.

(** C1. With [max_consecutive_failures = N >= 0], a monitor that is healthy
    with its counter at zero stays healthy through any [N] or fewer
    consecutive unhealthy results and is unhealthy after [N + 1] of them:
    the counter has to exceed the threshold, reaching it is not enough.
    For an arbitrary sequence of results the verdict is unhealthy exactly
    when the sequence contains [N + 1] unhealthy results in a row, and
    a healthy result, wherever it comes, puts the counter back to zero. *)
Theorem threshold_must_be_exceeded :
  forall (N : Z) (s : HealthCheckerThread),
    0 <= N ->
    _max_consecutive_failures s = N ->
    healthy s = true ->
    _current_consecutive_failures s = 0 ->
    (forall fs, Forall unhealthy fs -> Z.of_nat (List.length fs) <= N ->
                healthy (feed s fs) = true) /\
    (forall fs, Forall unhealthy fs -> Z.of_nat (List.length fs) = N + 1 ->
                healthy (feed s fs) = false) /\
    (forall rs, healthy (feed s rs) = false <-> failure_window N rs) /\
    (forall rs r,
        _current_consecutive_failures (feed s (rs ++ [(true, r)])) = 0) /\
    (forall s' r,
        _current_consecutive_failures (_maybe_update_failure_count s' true r) = 0).
Proof.
  intros N s HN Hmax Hs Hc.
  assert (Hchar : forall rs, healthy (feed s rs) = false <-> failure_window N rs).
  { intros rs. unfold healthy.
    rewrite (feed_verdict rs s N Hmax); [|lia|exact Hs].
    rewrite Hc. split; [|tauto].
    intros [H|H]; [now apply leading_run_window | exact H]. }
  split; [|split; [|split; [exact Hchar|split]]].
  - intros fs _ Hlen.
    destruct (healthy (feed s fs)) eqn:E; [reflexivity|].
    apply Hchar, window_length in E. lia.
  - intros fs Hfs Hlen. apply Hchar.
    exists [], fs, []. rewrite app_nil_r. auto.
  - intros rs r. rewrite feed_app. reflexivity.
  - reflexivity.
Qed.

(** A monitor with a threshold of two: two failures are tolerated, the
    third one flips the verdict. *)
Lemma threshold_must_be_exceeded_witness :
  let s := fst (__init__ (fun _ => (false, Some "down"%string)) 30 None 2 fresh_world) in
  healthy (feed s [failure None; failure None]) = true /\
  healthy (feed s [failure None; failure None; failure None]) = false.
Proof.
  intros s.
  destruct (threshold_must_be_exceeded 2 s) as (H1 & H2 & _);
    [lia | reflexivity | reflexivity | reflexivity |].
  split.
  - apply H1; [repeat constructor | simpl; lia].
  - apply H2; [repeat constructor | reflexivity].
Defined.

(** ** Stickiness of the unhealthy verdict *)

Lemma thread_step_keeps_unhealthy (m : Machine) :
  healthy (self m) = false -> healthy (self (thread_step m)) = false.
Proof.
  unfold thread_step, healthy. intros H.
  destruct (pc m); cbn [self]; auto.
  - destruct (_dead (self m)); exact H.
  - now apply update_keeps_unhealthy.
Qed.

Lemma apply_event_keeps_unhealthy (m : Machine) (e : Event) :
  healthy (self m) = false -> healthy (self (apply_event m e)) = false.
Proof.
  destruct e; [apply thread_step_keeps_unhealthy | auto].
Qed.

(** C3. Once the healthy flag of a monitor is false it stays false: whatever
    results the checks deliver afterwards, healthy or not, and however
    often [stop] is called, in any interleaving with the thread that
    executes [run]. *)
Theorem unhealthy_verdict_is_sticky :
  forall (m : Machine),
    healthy (self m) = false ->
    (forall h r, healthy (_maybe_update_failure_count (self m) h r) = false) /\
    healthy (stop (self m)) = false /\
    (forall rs, healthy (feed (self m) rs) = false) /\
    (forall es, healthy (self (exec es m)) = false).
Proof.
  intros m Hm. repeat split.
  - intros h r. now apply update_keeps_unhealthy.
  - exact Hm.
  - intros rs. now apply feed_keeps_unhealthy.
  - intros es. revert m Hm. unfold exec.
    induction es as [|e es IH]; intros m Hm; [exact Hm|].
    cbn [fold_left]. apply IH. now apply apply_event_keeps_unhealthy.
Qed.

(** A monitor built with a zero initial interval and a failing check:
    healthy results and a [stop] leave it unhealthy. *)
Lemma unhealthy_verdict_is_sticky_witness :
  let c : Checker := fun i => if Nat.eqb i 0 then (false, Some "cold"%string)
                              else (true, None) in
  let m := start (fst (__init__ c 5 (Some 0) 0 fresh_world))
                 (snd (__init__ c 5 (Some 0) 0 fresh_world)) in
  healthy (self m) = false /\
  healthy (self (exec [Step; Step; Step; Step; Stop; Step; Step] m)) = false.
Proof.
  intros c m.
  assert (Hm : healthy (self m) = false) by reflexivity.
  split; [exact Hm|].
  apply (unhealthy_verdict_is_sticky m Hm).
Defined.

(** ** Construction *)

(** C4. Immediately after construction: with a strictly positive initial
    interval the monitor is healthy, has no reason, and the check has not
    been invoked; with a zero initial interval the check has been invoked
    exactly once and the verdict and reason are what it returned. *)
Theorem initial_verdict :
  forall (c : Checker) (interval_secs : Z) (initial_interval_secs : option Z)
         (max_failures : Z) (w : World),
    let r := __init__ c interval_secs initial_interval_secs max_failures w in
    (0 < _initial_interval (fst r) ->
       healthy (fst r) = true /\ _reason (fst r) = None /\
       failure_reason (fst r) = None /\ snd r = w) /\
    (_initial_interval (fst r) = 0 ->
       (healthy (fst r), _reason (fst r)) = c (checker_calls w) /\
       checker_calls (snd r) = S (checker_calls w) /\
       slept (snd r) = slept w).
Proof.
  intros c i o N w r. subst r. unfold __init__.
  generalize (match o with Some v => v | None => i * 2 end). intros ii.
  destruct (Z.gtb_spec ii 0) as [Hpos|Hle]; unfold call_checker;
    cbn [fst snd _initial_interval].
  - split; [intros _ | intros H; lia]. repeat split.
  - split; [intros H; lia | intros _].
    unfold healthy. cbn. destruct (c (checker_calls w)); repeat split.
Qed.

(** Both kinds of construction on concrete arguments. *)
Lemma initial_verdict_witness :
  let c : Checker := fun _ => (false, Some "refused"%string) in
  (healthy (fst (__init__ c 30 None 0 fresh_world)) = true /\
   snd (__init__ c 30 None 0 fresh_world) = fresh_world) /\
  ((healthy (fst (__init__ c 30 (Some 0) 0 fresh_world)),
    _reason (fst (__init__ c 30 (Some 0) 0 fresh_world)))
   = (false, Some "refused"%string) /\
   checker_calls (snd (__init__ c 30 (Some 0) 0 fresh_world)) = 1%nat).
Proof.
  intros c. split.
  - destruct (initial_verdict c 30 None 0 fresh_world) as [H _].
    destruct H as (H1 & _ & _ & H4); [reflexivity|]. split; assumption.
  - destruct (initial_verdict c 30 (Some 0) 0 fresh_world) as [_ H].
    destruct H as (H1 & H2 & _); [reflexivity|]. split; assumption.
Defined.

(** C8. Without [initial_interval_secs] the initial interval is exactly twice
    [interval_secs]; a supplied value is used unchanged.  The initial
    interval is what [run] sleeps, once, before it invokes any check. *)
Theorem default_initial_interval :
  forall (c : Checker) (interval_secs max_failures : Z) (w : World),
    _initial_interval (fst (__init__ c interval_secs None max_failures w))
      = 2 * interval_secs /\
    (forall v,
       _initial_interval (fst (__init__ c interval_secs (Some v) max_failures w))
       = v) /\
    (forall o,
       let r := __init__ c interval_secs o max_failures w in
       let m := thread_step (start (fst r) (snd r)) in
       slept (world m) = slept (snd r) ++ [_initial_interval (fst r)] /\
       checker_calls (world m) = checker_calls (snd r) /\
       pc m = AtLoopTest).
Proof.
  intros c i N w. split; [|split].
  - unfold __init__, call_checker.
    destruct (i * 2 >? 0); cbn [fst _initial_interval]; lia.
  - intros v. unfold __init__. destruct (v >? 0); reflexivity.
  - intros o r m. subst m. repeat split.
Qed.

(** C9. A strictly negative [initial_interval_secs] takes the synchronous
    path: the constructor invokes the check once and adopts its result.
    In general the constructor leaves the check alone exactly when the
    initial interval is strictly positive. *)
Theorem negative_initial_interval_checks_synchronously :
  forall (c : Checker) (interval_secs v max_failures : Z) (w : World),
    v < 0 ->
    let r := __init__ c interval_secs (Some v) max_failures w in
    (healthy (fst r), _reason (fst r)) = c (checker_calls w) /\
    checker_calls (snd r) = S (checker_calls w) /\
    (forall o,
       let r' := __init__ c interval_secs o max_failures w in
       checker_calls (snd r') = checker_calls w <->
       0 < _initial_interval (fst r')).
Proof.
  intros c i v N w Hv r. subst r. unfold __init__ at 1 2 3.
  destruct (Z.gtb_spec v 0) as [Hpos|Hle]; [lia|].
  unfold healthy. cbn. destruct (c (checker_calls w)). repeat split.
  - unfold __init__.
    generalize (match o with Some v0 => v0 | None => i * 2 end). intros ii.
    destruct (Z.gtb_spec ii 0); cbn; intros Hcalls; lia.
  - unfold __init__.
    generalize (match o with Some v0 => v0 | None => i * 2 end). intros ii.
    destruct (Z.gtb_spec ii 0); cbn; intros Hcalls; lia.
Qed.

(** Construction with [initial_interval_secs = -1] and a failing check. *)
Lemma negative_initial_interval_checks_synchronously_witness :
  let c : Checker := fun _ => (false, Some "refused"%string) in
  -1 < 0 /\
  (healthy (fst (__init__ c 30 (Some (-1)) 3 fresh_world)),
   _reason (fst (__init__ c 30 (Some (-1)) 3 fresh_world)))
  = (false, Some "refused"%string).
Proof.
  intros c. split; [lia|].
  apply (negative_initial_interval_checks_synchronously c 30 (-1) 3 fresh_world).
  lia.
Defined.

(** ** Queries *)

(** C6. [healthy] returns the stored flag.  [failure_reason] returns nothing
    ([None]) when the verdict is healthy and a formatted reason exactly when
    it is unhealthy.  The text of that reason is
    ["Failed health check! "] followed by the stored reason itself, or by
    ["None"] when no reason is stored, so that two unhealthy monitors with
    different stored messages report different texts. *)
Theorem queries_reflect_verdict :
  forall (s : HealthCheckerThread),
    healthy s = _healthy s /\
    (healthy s = false ->
       failure_reason s =
       Some (mkFailureReason ("Failed health check! " ++ percent_s (_reason s)))) /\
    (healthy s = true -> failure_reason s = None) /\
    (failure_reason s <> None <-> healthy s = false) /\
    (forall msg, healthy s = false -> _reason s = Some msg ->
       failure_reason s = Some (mkFailureReason ("Failed health check! " ++ msg))) /\
    (healthy s = false -> _reason s = None ->
       failure_reason s = Some (mkFailureReason "Failed health check! None")) /\
    (forall s' msg msg',
       healthy s = false -> healthy s' = false ->
       _reason s = Some msg -> _reason s' = Some msg' ->
       failure_reason s = failure_reason s' -> msg = msg').
Proof.
  intros s. unfold failure_reason.
  split; [reflexivity|].
  split; [intros ->; reflexivity|].
  split; [intros ->; reflexivity|].
  split; [destruct (healthy s); cbn [negb]; split; congruence|].
  split; [intros msg -> ->; reflexivity|].
  split; [intros -> ->; reflexivity|].
  intros s' msg msg' -> -> -> -> H. cbn in H. congruence.
Qed.

(** The queries on a healthy monitor and on unhealthy monitors that store a
    message, another message, and no reason at all. *)
Lemma queries_reflect_verdict_witness :
  let refused : Checker := fun _ => (false, Some "refused"%string) in
  let timeout : Checker := fun _ => (false, Some "timed out"%string) in
  let silent : Checker := fun _ => (false, None) in
  failure_reason (fst (__init__ refused 30 None 0 fresh_world)) = None /\
  failure_reason (fst (__init__ refused 30 (Some 0) 0 fresh_world))
    = Some (mkFailureReason "Failed health check! refused") /\
  failure_reason (fst (__init__ timeout 30 (Some 0) 0 fresh_world))
    = Some (mkFailureReason "Failed health check! timed out") /\
  failure_reason (fst (__init__ silent 30 (Some 0) 0 fresh_world))
    = Some (mkFailureReason "Failed health check! None").
Proof.
  intros refused timeout silent.
  split; [|split; [|split]].
  - destruct (queries_reflect_verdict (fst (__init__ refused 30 None 0 fresh_world)))
      as (_ & _ & H & _). apply H. reflexivity.
  - destruct (queries_reflect_verdict (fst (__init__ refused 30 (Some 0) 0 fresh_world)))
      as (_ & _ & _ & _ & H & _). apply (H "refused"%string); reflexivity.
  - destruct (queries_reflect_verdict (fst (__init__ timeout 30 (Some 0) 0 fresh_world)))
      as (_ & _ & _ & _ & H & _). apply (H "timed out"%string); reflexivity.
  - destruct (queries_reflect_verdict (fst (__init__ silent 30 (Some 0) 0 fresh_world)))
      as (_ & _ & _ & _ & _ & H & _). apply H; reflexivity.
Defined.

(** ** Stopping *)

Lemma stop_stop (s : HealthCheckerThread) : stop (stop s) = stop s.
Proof. reflexivity. Qed.

Lemma update_stop (s : HealthCheckerThread) (h : bool) (r : Reason) :
  _maybe_update_failure_count (stop s) h r =
  stop (_maybe_update_failure_count s h r).
Proof.
  destruct h; [reflexivity|].
  rewrite !update_on_failure. cbn [stop _current_consecutive_failures
                                     _max_consecutive_failures].
  destruct (_ >? _); reflexivity.
Qed.

Lemma stop_machine_iter (m : Machine) (n : nat) :
  Nat.iter (S n) stop_machine m = stop_machine m.
Proof.
  induction n as [|n IH]; [reflexivity|].
  change (Nat.iter (S (S n)) stop_machine m)
    with (stop_machine (Nat.iter (S n) stop_machine m)).
  rewrite IH. reflexivity.
Qed.

Lemma apply_event_dead (m : Machine) (e : Event) :
  _dead (self m) = true -> _dead (self (apply_event m e)) = true.
Proof.
  intros H. destruct e; [|reflexivity].
  unfold apply_event, thread_step.
  destruct (pc m); cbn [self]; auto.
  - rewrite H. exact H.
  - rewrite update_dead. exact H.
Qed.

Lemma apply_event_no_new_check (m : Machine) (e : Event) :
  _dead (self m) = true ->
  (checker_calls (world (apply_event m e)) + committed_calls (pc (apply_event m e))
   = checker_calls (world m) + committed_calls (pc m))%nat.
Proof.
  intros H. destruct e; [|reflexivity].
  unfold apply_event, thread_step.
  destruct (pc m) eqn:E; cbn [world pc committed_calls call_checker snd
                              checker_calls clock_sleep];
    rewrite ?H, ?E; cbn [world pc committed_calls]; lia.
Qed.

Lemma apply_event_distance (m : Machine) (e : Event) :
  _dead (self m) = true ->
  (distance_to_exit (pc (apply_event m e)) =
   distance_to_exit (pc m) - steps_in [e])%nat.
Proof.
  intros H. destruct e; cbn [steps_in filter List.length apply_event].
  - unfold thread_step.
    destruct (pc m) eqn:E; cbn [pc distance_to_exit];
      rewrite ?H, ?E; reflexivity.
  - unfold stop_machine. cbn [pc]. lia.
Qed.

Lemma steps_in_cons (e : Event) (es : list Event) :
  steps_in (e :: es) = (steps_in [e] + steps_in es)%nat.
Proof. unfold steps_in. destruct e; reflexivity. Qed.

Lemma exec_after_dead (es : list Event) :
  forall m, _dead (self m) = true ->
    _dead (self (exec es m)) = true /\
    (checker_calls (world (exec es m)) + committed_calls (pc (exec es m))
     = checker_calls (world m) + committed_calls (pc m))%nat /\
    (distance_to_exit (pc (exec es m)) =
     distance_to_exit (pc m) - steps_in es)%nat.
Proof.
  induction es as [|e es IH]; intros m H.
  - cbn. repeat split; auto. lia.
  - unfold exec in *. cbn [fold_left].
    destruct (IH (apply_event m e) (apply_event_dead m e H)) as (I1 & I2 & I3).
    rewrite I1, I2, I3, steps_in_cons.
    rewrite apply_event_no_new_check, apply_event_distance by exact H.
    repeat split. lia.
Qed.

Lemma distance_zero (p : PC) : distance_to_exit p = 0%nat -> p = Exited.
Proof. destruct p; simpl; congruence. Qed.

(** C7. [stop] is idempotent and cooperative.  Calling it once or many times
    gives the same machine; it sets the dead signal and changes nothing
    else; a check that is in flight still returns and its result is still
    recorded; at the loop test the thread returns; from wherever the thread
    is, it has returned once it has made enough of its own moves (four at
    most), whatever further calls of [stop] are interleaved; and the only
    check that can still be invoked is one whose loop test was passed
    before the signal was set. *)
Theorem stop_is_idempotent :
  forall (m : Machine),
    (forall n, Nat.iter (S n) stop_machine m = stop_machine m) /\
    (_dead (self (stop_machine m)) = true /\
     healthy (self (stop_machine m)) = healthy (self m) /\
     _reason (self (stop_machine m)) = _reason (self m) /\
     _current_consecutive_failures (self (stop_machine m))
       = _current_consecutive_failures (self m) /\
     same_configuration (self (stop_machine m)) (self m) /\
     world (stop_machine m) = world m /\
     pc (stop_machine m) = pc m) /\
    (forall i, pc m = InCheck i ->
       thread_step (stop_machine m) =
       mkMachine (stop (_maybe_update_failure_count (self m)
                          (fst (_checker (self m) i)) (snd (_checker (self m) i))))
                 (world m) AtSleep) /\
    (pc m = AtLoopTest ->
       thread_step (stop_machine m) = mkMachine (stop (self m)) (world m) Exited) /\
    (forall es, (distance_to_exit (pc m) <= steps_in es)%nat ->
       pc (exec es (stop_machine m)) = Exited) /\
    (forall es,
       (checker_calls (world (exec es (stop_machine m)))
        <= checker_calls (world m) + committed_calls (pc m))%nat) /\
    (distance_to_exit (pc m) <= 4)%nat.
Proof.
  intros m.
  split; [intros n; apply stop_machine_iter|].
  split; [repeat split|].
  split; [|split; [|split; [|split]]].
  - intros i Hpc. unfold thread_step, stop_machine. cbn [pc self world].
    rewrite Hpc. cbn [stop _checker]. rewrite <- update_stop. reflexivity.
  - intros Hpc. unfold thread_step, stop_machine. cbn [pc self world].
    rewrite Hpc. reflexivity.
  - intros es Hes.
    destruct (exec_after_dead es (stop_machine m) eq_refl) as (_ & _ & Hd).
    apply distance_zero. rewrite Hd. cbn [stop_machine pc]. lia.
  - intros es.
    destruct (exec_after_dead es (stop_machine m) eq_refl) as (_ & Hc & _).
    cbn [stop_machine world pc] in Hc. lia.
  - destruct (pc m); cbn; lia.
Qed.

(** A monitor stopped several times while its first check is in flight: the
    result of that check is recorded, no second check is invoked, and the
    thread has returned. *)
Lemma stop_is_idempotent_witness :
  let c : Checker := fun _ => (false, Some "refused"%string) in
  let m := exec [Step; Step; Step]
             (start (fst (__init__ c 5 None 0 fresh_world)) fresh_world) in
  pc m = InCheck 0 /\
  healthy (self (thread_step (stop_machine m))) = false /\
  pc (exec [Stop; Step; Step; Stop; Step] (stop_machine m)) = Exited /\
  (checker_calls (world (exec [Stop; Step; Step; Stop; Step] (stop_machine m)))
   <= 1)%nat.
Proof.
  intros c m.
  destruct (stop_is_idempotent m) as (_ & _ & Hfly & _ & Hexit & Hcalls & _).
  split; [reflexivity|]. split; [|split].
  - rewrite (Hfly 0%nat eq_refl). reflexivity.
  - apply Hexit. cbn. lia.
  - apply Hcalls.
Defined.

(** ** After the verdict has latched *)

Lemma feed_failures_counter (fs : list CheckResult) :
  forall s, Forall unhealthy fs ->
    _current_consecutive_failures (feed s fs) =
    _current_consecutive_failures s + Z.of_nat (List.length fs).
Proof.
  induction fs as [|[h r] fs IH]; intros s Hfs.
  - cbn. lia.
  - inversion Hfs as [|? ? Hx Hrest]; subst.
    unfold unhealthy in Hx. cbn [fst] in Hx. subst h.
    rewrite feed_cons, IH by exact Hrest.
    rewrite update_counter. cbn [fst List.length]. lia.
Qed.

(** A run of failures that ends beyond the threshold leaves the reason of
    its last failure in the object. *)
Lemma feed_failures_reason (fs : list CheckResult) (s : HealthCheckerThread) :
  fs <> [] -> Forall unhealthy fs ->
  _max_consecutive_failures s <
    _current_consecutive_failures s + Z.of_nat (List.length fs) ->
  _healthy (feed s fs) = false /\ _reason (feed s fs) = last_reason fs.
Proof.
  intros Hne Hfs Hlen.
  destruct (exists_last Hne) as (fs' & [h r] & ->).
  apply Forall_app in Hfs. destruct Hfs as [Hfs' Hx].
  inversion Hx as [|? ? Hh _]; subst.
  unfold unhealthy in Hh. cbn [fst] in Hh. subst h.
  unfold last_reason. rewrite last_last, feed_app. cbn [snd].
  change (feed (feed s fs') [(false, r)])
    with (_maybe_update_failure_count (feed s fs') false r).
  rewrite update_on_failure, feed_failures_counter, feed_max by exact Hfs'.
  rewrite length_app in Hlen. cbn [List.length] in Hlen.
  destruct (Z.gtb_spec (_current_consecutive_failures s
                          + Z.of_nat (List.length fs') + 1)
                       (_max_consecutive_failures s)) as [_|Hle];
    [split; reflexivity | lia].
Qed.

(** C10. On a monitor whose verdict has latched unhealthy, a healthy result
    puts the counter back to zero and leaves verdict and reason as they
    were; whatever results follow, a later run of
    [max_consecutive_failures + 1] unhealthy results in a row leaves the
    verdict unhealthy and replaces the stored reason by the reason of the
    last failure of that run. *)
Theorem latched_monitor_keeps_counting :
  forall (s : HealthCheckerThread) (r0 : Reason) (mid fs : list CheckResult),
    healthy s = false ->
    0 <= _max_consecutive_failures s ->
    Forall unhealthy fs ->
    Z.of_nat (List.length fs) = _max_consecutive_failures s + 1 ->
    let s1 := _maybe_update_failure_count s true r0 in
    _current_consecutive_failures s1 = 0 /\
    healthy s1 = false /\
    _reason s1 = _reason s /\
    healthy (feed s1 (mid ++ fs)) = false /\
    _reason (feed s1 (mid ++ fs)) = last_reason fs.
Proof.
  intros s r0 mid fs Hs HN Hfs Hlen s1.
  split; [reflexivity|]. split; [exact Hs|]. split; [reflexivity|].
  rewrite feed_app. unfold healthy.
  apply feed_failures_reason.
  - intros ->. cbn in Hlen. lia.
  - exact Hfs.
  - rewrite feed_max. subst s1. rewrite update_max.
    pose proof (feed_counter_nonneg mid (_maybe_update_failure_count s true r0)) as Hc.
    rewrite update_on_healthy in Hc. cbn [set_failures _current_consecutive_failures] in Hc.
    rewrite update_on_healthy. specialize (Hc (Z.le_refl 0)). lia.
Qed.

(** With a threshold of one: a monitor that failed at construction, then saw
    a healthy result, a single failure and another healthy result, reports
    the reason of the second of two failures in a row. *)
Lemma latched_monitor_keeps_counting_witness :
  let c : Checker := fun _ => (false, Some "disk"%string) in
  let s := fst (__init__ c 5 (Some 0) 1 fresh_world) in
  let s2 := feed (_maybe_update_failure_count s true None)
                 ([failure (Some "cpu"%string); (true, None)] ++
                  [failure (Some "ram"%string); failure (Some "net"%string)]) in
  healthy s = false /\ _reason s = Some "disk"%string /\
  healthy s2 = false /\ _reason s2 = Some "net"%string.
Proof.
  intros c s s2.
  split; [reflexivity|]. split; [reflexivity|].
  apply (latched_monitor_keeps_counting s None
           [failure (Some "cpu"%string); (true, None)]
           [failure (Some "ram"%string); failure (Some "net"%string)]).
  - reflexivity.
  - cbn. lia.
  - repeat constructor.
  - reflexivity.
Defined.

(** ** The loop of [run] feeds the checker's results to the update routine *)

Lemma loop_iteration (m : Machine) :
  pc m = AtLoopTest -> _dead (self m) = false ->
  let r := _checker (self m) (checker_calls (world m)) in
  exec [Step; Step; Step; Step] m =
  mkMachine (_maybe_update_failure_count (self m) (fst r) (snd r))
            (clock_sleep (_interval (self m))
                         (snd (call_checker (_checker (self m)) (world m))))
            AtLoopTest.
Proof.
  intros Hpc Hdead r. subst r.
  unfold exec. cbn [fold_left apply_event].
  unfold thread_step at 4. rewrite Hpc, Hdead.
  unfold thread_step at 3. cbn [pc self world].
  unfold thread_step at 2. cbn [pc self world].
  unfold thread_step. cbn [pc self world].
  f_equal. f_equal.
  destruct (fst (_checker (self m) (checker_calls (world m)))); [reflexivity|].
  rewrite update_on_failure. destruct (_ >? _); reflexivity.
Qed.

End HealthCheckerFacts.

(** * Properties of the executor model *)
Module ExecutorFacts.
Import Executor.

Lemma run_app (es1 es2 : list Event) :
  forall x, run (es1 ++ es2) x =
            match run es1 x with
            | Some x' => run es2 x'
            | None => None
            end.
Proof.
  induction es1 as [|e es1 IH]; intros x; [reflexivity|].
  cbn [app run]. destruct (step x e); [apply IH | reflexivity].
Qed.

Lemma step_consistent (x x' : Executor) (e : Event) :
  consistent x -> step x e = Some x' -> consistent x'.
Proof.
  destruct x as [p a k n u d]. unfold consistent, step, do_kill.
  cbn [phase updates stops _abort_runner kill_forwarded kills_delivered].
  intros Hc Hstep.
  destruct e as [| | | |o|r]; destruct p; try discriminate Hstep;
    try destruct o; try destruct a; try destruct k;
    injection Hstep as <-; cbn in *; destruct Hc as [Hu Hd]; subst;
    try (split; [reflexivity|reflexivity]);
    try (split; [|reflexivity]; eexists; split;
         [|first [left; reflexivity | right; reflexivity]]; try reflexivity;
         destruct r; reflexivity);
    try (split; [exact Hu | reflexivity]).
Qed.

Lemma run_consistent (es : list Event) :
  forall x x', consistent x -> run es x = Some x' -> consistent x'.
Proof.
  induction es as [|e es IH]; intros x x' Hc Hrun.
  - injection Hrun as <-. exact Hc.
  - cbn [run] in Hrun. destruct (step x e) as [y|] eqn:E; [|discriminate].
    eapply IH; [|exact Hrun]. eapply step_consistent; eauto.
Qed.

Lemma fresh_consistent : consistent fresh.
Proof. split; reflexivity. Qed.

Lemma terminated_is_final (es : list Event) :
  forall x x', phase x = TERMINATED -> run es x = Some x' -> x' = x.
Proof.
  induction es as [|e es IH]; intros x x' Hp Hrun.
  - injection Hrun as <-. reflexivity.
  - cbn [run] in Hrun. unfold step, do_kill in Hrun. rewrite Hp in Hrun.
    destruct e; try discriminate Hrun; apply IH; assumption.
Qed.

(** From every launched state some schedule leads to a terminal report. *)
Lemma can_terminate (x : Executor) :
  phase x = INITIALIZING \/ phase x = STARTED ->
  exists e x', step x e = Some x' /\ phase x' = TERMINATED.
Proof.
  intros [Hp|Hp].
  - exists (InitEnds InitializeRaises), (terminate x FAILED).
    unfold step. rewrite Hp. split; reflexivity.
  - exists (RunnerEnds CleanExit),
           (terminate x (if kill_forwarded x then KILLED else map_end CleanExit)).
    unfold step. rewrite Hp. split; reflexivity.
Qed.

Lemma consistent_shape (x : Executor) :
  consistent x ->
  (exists t, is_terminal t = true /\
             (Prefix (updates x) [STARTING; RUNNING; t] \/
              Prefix (updates x) [STARTING; t])) /\
  (terminal_count (updates x) <= 1)%nat /\
  (phase x = TERMINATED <-> terminal_count (updates x) = 1%nat).
Proof.
  unfold consistent, Prefix, terminal_count.
  destruct (phase x).
  - intros [-> _]. repeat split; try (cbn; lia); try discriminate.
    exists KILLED. split; [reflexivity|]. left. eexists. reflexivity.
  - intros [-> _]. repeat split; try (cbn; lia); try discriminate.
    exists KILLED. split; [reflexivity|]. left. eexists. reflexivity.
  - intros [-> _]. repeat split; try (cbn; lia); try discriminate.
    exists KILLED. split; [reflexivity|]. left. eexists. reflexivity.
  - intros [(t & Ht & [-> | ->]) _]; cbn [filter is_terminal]; rewrite Ht;
      (split; [|split; [cbn; lia | split; reflexivity]]);
      exists t; (split; [exact Ht|]);
      [right | left]; exists []; reflexivity.
Qed.

(** A schedule in which the runner ends has terminated the task. *)
Lemma runner_end_terminates (es : list Event) :
  forall x x',
    run es x = Some x' -> existsb is_runner_end es = true ->
    phase x' = TERMINATED.
Proof.
  induction es as [|e es IH]; intros x x' Hrun Hex; [discriminate Hex|].
  cbn [run] in Hrun. destruct (step x e) as [y|] eqn:E; [|discriminate].
  cbn [existsb] in Hex.
  destruct (is_runner_end e) eqn:He.
  - destruct e; try discriminate He.
    cbn [step] in E. destruct (phase x); try discriminate E.
    injection E as <-.
    apply terminated_is_final in Hrun; [|reflexivity].
    subst x'. reflexivity.
  - apply (IH y x' Hrun Hex).
Qed.

Lemma run_split (es1 : list Event) (e : Event) (es2 : list Event) :
  forall x x', run (es1 ++ e :: es2) x = Some x' ->
    exists y z, run es1 x = Some y /\ step y e = Some z /\ run es2 z = Some x'.
Proof.
  intros x x' H. rewrite run_app in H.
  destruct (run es1 x) as [y|]; [|discriminate H].
  cbn [run] in H. destruct (step y e) as [z|] eqn:E; [|discriminate H].
  exists y, z. auto.
Qed.

(** Once [RUNNING] has been reported, the log is [STARTING, RUNNING],
    possibly followed by one terminal status. *)
Lemma started_continues (es : list Event) :
  forall z x,
    phase z = STARTED -> updates z = [STARTING; RUNNING] ->
    run es z = Some x ->
    updates x = [STARTING; RUNNING] \/
    exists t, is_terminal t = true /\ updates x = [STARTING; RUNNING; t].
Proof.
  induction es as [|e es IH]; intros z x Hp Hu Hrun.
  - injection Hrun as <-. now left.
  - cbn [run] in Hrun.
    destruct e as [| | | |o|r]; cbn [step] in Hrun; rewrite ?Hp in Hrun;
      try discriminate Hrun.
    + apply (IH z x Hp Hu Hrun).
    + apply (IH (do_kill z) x); [| |exact Hrun]; unfold do_kill; rewrite Hp;
        destruct (kill_forwarded z); cbn; first [assumption | reflexivity].
    + apply (IH (do_kill z) x); [| |exact Hrun]; unfold do_kill; rewrite Hp;
        destruct (kill_forwarded z); cbn; first [assumption | reflexivity].
    + apply terminated_is_final in Hrun; [|reflexivity]. subst x.
      right. exists (if kill_forwarded z then KILLED else map_end r).
      split; [destruct (kill_forwarded z), r; reflexivity|].
      cbn [terminate updates]. rewrite Hu. reflexivity.
Qed.

(** What the driver has been told at the end of a schedule in which an event
    of the initialization thread or of the status manager occurs, in terms
    of the flags at the moment of that event. *)
Lemma internal_event_outcome (es1 : list Event) (e : Event) (es2 : list Event)
    (y x : Executor) :
  run es1 fresh = Some y ->
  run (es1 ++ e :: es2) fresh = Some x ->
  (e = InitEnds InitializeRaises -> updates x = [STARTING; FAILED]) /\
  (e = InitEnds StartRaises ->
     updates x = [STARTING; if _abort_runner y then KILLED else FAILED]) /\
  (e = InitEnds StartReturns -> _abort_runner y = true ->
     updates x = [STARTING; KILLED]) /\
  (e = InitEnds StartReturns -> _abort_runner y = false ->
     updates x = [STARTING; RUNNING] \/
     exists t, is_terminal t = true /\ updates x = [STARTING; RUNNING; t]) /\
  (e = AbortCheckpoint -> _abort_runner y = true ->
     updates x = [STARTING; KILLED]) /\
  (forall r, e = RunnerEnds r ->
     updates x =
     [STARTING; RUNNING; if kill_forwarded y then KILLED else map_end r]).
Proof.
  intros Hy Hrun.
  destruct (run_split es1 e es2 fresh x Hrun) as (y' & z & Hy' & Hstep & Hz).
  rewrite Hy in Hy'. injection Hy' as <-.
  pose proof (run_consistent es1 fresh y fresh_consistent Hy) as Hc.
  unfold consistent in Hc.
  repeat split.
  - intros ->. cbn [step] in Hstep.
    destruct (phase y); try discriminate Hstep. injection Hstep as <-.
    apply terminated_is_final in Hz; [|reflexivity]. subst x.
    destruct Hc as [Hu _]. cbn [terminate updates]. rewrite Hu. reflexivity.
  - intros ->. cbn [step] in Hstep.
    destruct (phase y); try discriminate Hstep. injection Hstep as <-.
    destruct Hc as [Hu _].
    destruct (_abort_runner y);
      (apply terminated_is_final in Hz; [|reflexivity]); subst x;
      cbn [terminate updates]; rewrite Hu; reflexivity.
  - intros -> Ha. cbn [step] in Hstep. rewrite Ha in Hstep.
    destruct (phase y); try discriminate Hstep. injection Hstep as <-.
    apply terminated_is_final in Hz; [|reflexivity]. subst x.
    destruct Hc as [Hu _]. cbn [terminate updates]. rewrite Hu. reflexivity.
  - intros -> Ha. cbn [step] in Hstep. rewrite Ha in Hstep.
    destruct (phase y); try discriminate Hstep. injection Hstep as <-.
    destruct Hc as [Hu _].
    apply (started_continues es2 _ x) in Hz; [exact Hz | reflexivity |].
    cbn [set_phase send_update updates]. rewrite Hu. reflexivity.
  - intros -> Ha. cbn [step] in Hstep. rewrite Ha in Hstep.
    destruct (phase y); try discriminate Hstep. injection Hstep as <-.
    apply terminated_is_final in Hz; [|reflexivity]. subst x.
    destruct Hc as [Hu _]. cbn [terminate updates]. rewrite Hu. reflexivity.
  - intros r ->. cbn [step] in Hstep.
    destruct (phase y); try discriminate Hstep. injection Hstep as <-.
    apply terminated_is_final in Hz; [|reflexivity]. subst x.
    destruct Hc as [Hu _]. cbn [terminate updates]. rewrite Hu. reflexivity.
Qed.

(** C2, as stated, fails: a kill that arrives while the runner is still
    initializing ends the task with [STARTING, KILLED], which is an initial
    segment of no list [STARTING, RUNNING, t]. *)
Lemma running_may_be_skipped :
  exists x,
    run [launchTask; killTask; InitEnds StartReturns] fresh = Some x /\
    updates x = [STARTING; KILLED] /\
    ~ (exists t, Prefix (updates x) [STARTING; RUNNING; t]).
Proof.
  eexists. split; [reflexivity|]. split; [reflexivity|].
  intros (t & rest & H). cbn in H. discriminate H.
Qed.

(** C2, amended.  In every reachable state of the executor the statuses the
    driver has received are an initial segment of [STARTING, RUNNING, t] or
    of [STARTING, t] for a terminal [t]: [STARTING] comes first, [RUNNING]
    never comes before it, nothing follows a terminal status, and
    [RUNNING] may be missing when the initialization is aborted or fails.
    At most one terminal status is ever delivered; exactly one has been
    delivered when the task has terminated, which is the case in every
    schedule in which the runner ends; after that no event changes
    anything; every launched task that has not terminated can; and however
    many kills are issued, at most one reaches the runner.
    Exactly one terminal status has been delivered as soon as the schedule
    contains one of the events that complete the task, and the log is then
    known in full: [STARTING, FAILED] when [initialize()] raises;
    [STARTING, FAILED], or [STARTING, KILLED] if the abort flag was set,
    when [start()] would raise; [STARTING, KILLED] when the initialization
    returns or polls the abort flag while it is set;
    [STARTING, RUNNING, t] when the runner ends, [t] being [KILLED] if a
    kill was forwarded and the mapped end state of the runner otherwise.
    An initialization that returns with the abort flag clear reports
    [RUNNING] and nothing but one terminal status after it. *)
Theorem status_updates_are_ordered :
  forall (es : list Event) (x : Executor),
    run es fresh = Some x ->
    (exists t, is_terminal t = true /\
               (Prefix (updates x) [STARTING; RUNNING; t] \/
                Prefix (updates x) [STARTING; t])) /\
    (terminal_count (updates x) <= 1)%nat /\
    (phase x = TERMINATED <-> terminal_count (updates x) = 1%nat) /\
    (existsb is_runner_end es = true -> terminal_count (updates x) = 1%nat) /\
    (forall es' x', phase x = TERMINATED -> run es' x = Some x' -> x' = x) /\
    (phase x = INITIALIZING \/ phase x = STARTED ->
     exists e x', step x e = Some x' /\ phase x' = TERMINATED) /\
    kill_gate x /\
    (forall es1 e es2 y,
       es = es1 ++ e :: es2 -> run es1 fresh = Some y ->
       (e = InitEnds InitializeRaises -> updates x = [STARTING; FAILED]) /\
       (e = InitEnds StartRaises ->
          updates x = [STARTING; if _abort_runner y then KILLED else FAILED]) /\
       (e = InitEnds StartReturns -> _abort_runner y = true ->
          updates x = [STARTING; KILLED]) /\
       (e = InitEnds StartReturns -> _abort_runner y = false ->
          updates x = [STARTING; RUNNING] \/
          exists t, is_terminal t = true /\ updates x = [STARTING; RUNNING; t]) /\
       (e = AbortCheckpoint -> _abort_runner y = true ->
          updates x = [STARTING; KILLED]) /\
       (forall r, e = RunnerEnds r ->
          updates x =
          [STARTING; RUNNING; if kill_forwarded y then KILLED else map_end r])) /\
    (In (InitEnds InitializeRaises) es \/ In (InitEnds StartRaises) es \/
     (exists r, In (RunnerEnds r) es) ->
     terminal_count (updates x) = 1%nat).
Proof.
  intros es x Hrun.
  pose proof (run_consistent es fresh x fresh_consistent Hrun) as Hc.
  destruct (consistent_shape x Hc) as (H1 & H2 & H3).
  assert (Hout : forall es1 e es2 y,
             es = es1 ++ e :: es2 -> run es1 fresh = Some y ->
             (e = InitEnds InitializeRaises -> updates x = [STARTING; FAILED]) /\
             (e = InitEnds StartRaises ->
                updates x = [STARTING; if _abort_runner y then KILLED else FAILED]) /\
             (e = InitEnds StartReturns -> _abort_runner y = true ->
                updates x = [STARTING; KILLED]) /\
             (e = InitEnds StartReturns -> _abort_runner y = false ->
                updates x = [STARTING; RUNNING] \/
                exists t, is_terminal t = true /\
                          updates x = [STARTING; RUNNING; t]) /\
             (e = AbortCheckpoint -> _abort_runner y = true ->
                updates x = [STARTING; KILLED]) /\
             (forall r, e = RunnerEnds r ->
                updates x =
                [STARTING; RUNNING;
                 if kill_forwarded y then KILLED else map_end r])).
  { intros es1 e es2 y -> Hy. apply (internal_event_outcome es1 e es2 y x Hy Hrun). }
  assert (Hdone : In (InitEnds InitializeRaises) es \/
                  In (InitEnds StartRaises) es \/
                  (exists r, In (RunnerEnds r) es) ->
                  terminal_count (updates x) = 1%nat).
  { intros H.
    assert (Hin : exists e, In e es /\
                  (e = InitEnds InitializeRaises \/ e = InitEnds StartRaises \/
                   exists r, e = RunnerEnds r)).
    { destruct H as [H|[H|(r & H)]]; eexists; (split; [exact H|]); eauto. }
    destruct Hin as (e & Hin & He).
    apply in_split in Hin. destruct Hin as (es1 & es2 & Hes).
    pose proof Hrun as Hrun'. rewrite Hes in Hrun'.
    destruct (run_split es1 e es2 fresh x Hrun') as (y & _ & Hy & _ & _).
    destruct (Hout es1 e es2 y Hes Hy) as (O1 & O2 & _ & _ & _ & O6).
    destruct He as [He|[He|(r & He)]].
    - rewrite (O1 He). reflexivity.
    - rewrite (O2 He). destruct (_abort_runner y); reflexivity.
    - rewrite (O6 r He). destruct (kill_forwarded y), r; reflexivity. }
  split; [exact H1|]. split; [exact H2|]. split; [exact H3|].
  split; [|split; [|split; [|split; [|split; [exact Hout | exact Hdone]]]]].
  - intros Hex. apply H3. eapply runner_end_terminates; eauto.
  - intros es' x' Hp Hr. eapply terminated_is_final; eauto.
  - apply can_terminate.
  - clear Hc H1 H2 H3 Hout Hdone. revert x Hrun.
    assert (G : forall es y x, kill_gate y -> run es y = Some x -> kill_gate x).
    { clear. induction es as [|e es IH]; intros y x Hy Hr.
      - injection Hr as <-. exact Hy.
      - cbn [run] in Hr. destruct (step y e) as [z|] eqn:E; [|discriminate].
        apply (IH z x); [|exact Hr]. clear IH Hr.
        destruct y as [p a k n u d]. unfold kill_gate, step, do_kill in *.
        cbn [phase updates stops _abort_runner kill_forwarded kills_delivered] in *.
        destruct e as [| | | |o|r]; destruct p; try discriminate E;
          try destruct o; try destruct a; try destruct k;
          injection E as <-; cbn in *; congruence. }
    intros x Hrun. apply (G es fresh x); [reflexivity | exact Hrun].
Qed.

(** The schedule of [test_killTask]: launch, start, two kills, the runner ends. *)
Lemma status_updates_are_ordered_witness :
  let es := [launchTask; InitEnds StartReturns; killTask; killTask;
             RunnerEnds CleanExit] in
  exists x, run es fresh = Some x /\
            updates x = [STARTING; RUNNING; KILLED] /\
            terminal_count (updates x) = 1%nat /\
            kills_delivered x = 1%nat.
Proof.
  intros es.
  exists (mkExecutor TERMINATED false true 1 [STARTING; RUNNING; KILLED] 1).
  assert (Hrun : run es fresh =
                 Some (mkExecutor TERMINATED false true 1
                                  [STARTING; RUNNING; KILLED] 1))
    by reflexivity.
  destruct (status_updates_are_ordered es _ Hrun)
    as (_ & _ & _ & H4 & _ & _ & H7 & _).
  split; [exact Hrun|]. split; [reflexivity|].
  split; [apply H4; reflexivity | exact H7].
Defined.

(** ** A kill during initialization *)







End ExecutorFacts.

(** * Further properties of the health monitor *)
Module HealthCheckerExtras.
Import HealthChecker HealthCheckerRuns HealthCheckerFacts.

Lemma exec_app (es1 es2 : list Event) (m : Machine) :
  exec (es1 ++ es2) m = exec es2 (exec es1 m).
Proof. unfold exec. apply fold_left_app. Qed.

Lemma exec_cons (e : Event) (es : list Event) (m : Machine) :
  exec (e :: es) m = exec es (apply_event m e).
Proof. reflexivity. Qed.

Lemma feed_snoc (s : HealthCheckerThread) (rs : list CheckResult) (r : CheckResult) :
  feed s (rs ++ [r]) = _maybe_update_failure_count (feed s rs) (fst r) (snd r).
Proof. rewrite feed_app. reflexivity. Qed.

Lemma trailing_failures_snoc (rs : list CheckResult) (r : CheckResult) :
  trailing_failures (rs ++ [r]) =
  if is_unhealthy r then S (trailing_failures rs) else 0%nat.
Proof. unfold trailing_failures. rewrite rev_app_distr. reflexivity. Qed.

(** X1. The counter counts the unhealthy results at the end of what the
    monitor has been fed: after the results [rs] it is the number of
    unhealthy results [rs] ends with, on top of the old counter if [rs]
    holds nothing but unhealthy results. *)
Theorem counter_is_trailing_failures :
  forall (s : HealthCheckerThread) (rs : list CheckResult),
    _current_consecutive_failures (feed s rs) =
    Z.of_nat (trailing_failures rs) +
    (if forallb is_unhealthy rs then _current_consecutive_failures s else 0).
Proof.
  intros s rs. induction rs as [|r rs IH] using rev_ind.
  - cbn. lia.
  - rewrite feed_snoc, update_counter, trailing_failures_snoc, forallb_app.
    cbn [forallb]. rewrite andb_true_r. unfold is_unhealthy at 1 3.
    destruct (fst r); cbn [negb].
    + rewrite andb_false_r. reflexivity.
    + rewrite andb_true_r, IH. lia.
Qed.

Lemma init_counter (c : Checker) (i : Z) (o : option Z) (N : Z) (w : World) :
  _current_consecutive_failures (fst (__init__ c i o N w)) = 0.
Proof.
  unfold __init__. destruct (_ >? 0); [reflexivity|].
  unfold call_checker. reflexivity.
Qed.

Lemma init_max (c : Checker) (i : Z) (o : option Z) (N : Z) (w : World) :
  _max_consecutive_failures (fst (__init__ c i o N w)) = N.
Proof.
  unfold __init__. destruct (_ >? 0); [reflexivity|].
  unfold call_checker. reflexivity.
Qed.

Lemma init_dead (c : Checker) (i : Z) (o : option Z) (N : Z) (w : World) :
  _dead (fst (__init__ c i o N w)) = false.
Proof.
  unfold __init__. destruct (_ >? 0); [reflexivity|].
  unfold call_checker. reflexivity.
Qed.

Lemma init_checker (c : Checker) (i : Z) (o : option Z) (N : Z) (w : World) :
  _checker (fst (__init__ c i o N w)) = c.
Proof.
  unfold __init__. destruct (_ >? 0); [reflexivity|].
  unfold call_checker. reflexivity.
Qed.

(** X2. With a threshold that is zero or negative every unhealthy result is
    fatal: whatever a constructed monitor has been fed before, one more
    unhealthy result leaves it unhealthy with the reason of that result. *)
Theorem nonpositive_threshold_every_failure_fatal :
  forall (c : Checker) (interval_secs : Z) (o : option Z) (N : Z) (w : World)
         (rs : list CheckResult) (reason : Reason),
    N <= 0 ->
    let s := feed (fst (__init__ c interval_secs o N w)) rs in
    healthy (_maybe_update_failure_count s false reason) = false /\
    _reason (_maybe_update_failure_count s false reason) = reason.
Proof.
  intros c i o N w rs reason HN s.
  assert (Hc : 0 <= _current_consecutive_failures s).
  { subst s. apply feed_counter_nonneg. rewrite init_counter. lia. }
  assert (Hm : _max_consecutive_failures s = N).
  { subst s. rewrite feed_max. apply init_max. }
  unfold healthy. rewrite update_on_failure, Hm.
  destruct (Z.gtb_spec (_current_consecutive_failures s + 1) N) as [_|Hle];
    [split; reflexivity | lia].
Qed.

(** A threshold of [-3]: a failure right after a healthy result is fatal. *)
Lemma nonpositive_threshold_every_failure_fatal_witness :
  let s := feed (fst (__init__ (fun _ => (true, None)) 30 None (-3) fresh_world))
                [(true, None)] in
  -3 <= 0 /\
  healthy (_maybe_update_failure_count s false (Some "late"%string)) = false.
Proof.
  intros s. split; [lia|].
  apply (nonpositive_threshold_every_failure_fatal
           (fun _ => (true, None)) 30 None (-3) fresh_world [(true, None)]
           (Some "late"%string)).
  lia.
Defined.

(** X3. Raising the threshold never makes a monitor unhealthy earlier: of two
    monitors with equal counters that are fed the same results, the one
    with the larger threshold is healthy whenever the other one is. *)
Theorem larger_threshold_is_more_tolerant :
  forall (rs : list CheckResult) (s1 s2 : HealthCheckerThread),
    _current_consecutive_failures s1 = _current_consecutive_failures s2 ->
    _max_consecutive_failures s1 <= _max_consecutive_failures s2 ->
    (healthy s1 = true -> healthy s2 = true) ->
    healthy (feed s1 rs) = true -> healthy (feed s2 rs) = true.
Proof.
  induction rs as [|[h r] rs IH]; intros s1 s2 Hc Hm Hh; [exact Hh|].
  rewrite !feed_cons. cbn [fst snd]. apply IH.
  - rewrite !update_counter, Hc. reflexivity.
  - rewrite !update_max. exact Hm.
  - unfold healthy in *. destruct h; [exact Hh|].
    rewrite !update_on_failure, <- Hc.
    destruct (Z.gtb_spec (_current_consecutive_failures s1 + 1)
                         (_max_consecutive_failures s1));
      destruct (Z.gtb_spec (_current_consecutive_failures s1 + 1)
                           (_max_consecutive_failures s2));
      cbn; try discriminate; try exact Hh. lia.
Qed.

(** Thresholds one and two on the same two failures. *)
Lemma larger_threshold_is_more_tolerant_witness :
  let c : Checker := fun _ => (true, None) in
  let s1 := fst (__init__ c 30 None 2 fresh_world) in
  let s2 := fst (__init__ c 30 None 5 fresh_world) in
  healthy (feed s1 [failure None; failure None]) = true /\
  healthy (feed s2 [failure None; failure None]) = true.
Proof.
  intros c s1 s2.
  assert (H1 : healthy (feed s1 [failure None; failure None]) = true)
    by reflexivity.
  split; [exact H1|].
  apply (larger_threshold_is_more_tolerant
           [failure None; failure None] s1 s2); auto.
  cbn. lia.
Defined.

(** X4. [stop] and the recording of results do not interfere: stopping a
    monitor and then feeding it results gives the same object as feeding
    it first and stopping it afterwards. *)
Theorem stop_commutes_with_results :
  forall (rs : list CheckResult) (s : HealthCheckerThread),
    feed (stop s) rs = stop (feed s rs).
Proof.
  induction rs as [|r rs IH]; intros s; [reflexivity|].
  rewrite !feed_cons, update_stop. apply IH.
Qed.

(** ** The thread of [run] when nobody interferes *)

Lemma update_configuration (s : HealthCheckerThread) (h : bool) (r : Reason) :
  same_configuration (_maybe_update_failure_count s h r) s.
Proof.
  destruct h; [repeat split|].
  rewrite update_on_failure. destruct (_ >? _); repeat split.
Qed.

Lemma feed_configuration (rs : list CheckResult) :
  forall s, same_configuration (feed s rs) s.
Proof.
  induction rs as [|r rs IH]; intros s; [repeat split|].
  rewrite feed_cons.
  destruct (IH (_maybe_update_failure_count s (fst r) (snd r)))
    as (A1 & A2 & A3 & A4).
  destruct (update_configuration s (fst r) (snd r)) as (B1 & B2 & B3 & B4).
  repeat split; congruence.
Qed.

Lemma undisturbed_app (a b : nat) :
  undisturbed (a + b) = undisturbed a ++ undisturbed b.
Proof. unfold undisturbed. apply repeat_app. Qed.

Lemma iterations (k : nat) :
  forall m, pc m = AtLoopTest -> _dead (self m) = false ->
    exec (undisturbed (4 * k)) m =
    mkMachine
      (feed (self m) (results_from (_checker (self m)) (checker_calls (world m)) k))
      (mkWorld (checker_calls (world m) + k)
               (slept (world m) ++ repeat (_interval (self m)) k))
      AtLoopTest.
Proof.
  induction k as [|k IH]; intros m Hpc Hdead.
  - change (4 * 0)%nat with 0%nat.
    cbn [undisturbed repeat exec fold_left results_from seq map feed].
    rewrite Nat.add_0_r, app_nil_r. destruct m as [s [n l] p].
    cbn in *. subst p. reflexivity.
  - replace (4 * S k)%nat with (4 + 4 * k)%nat by lia.
    rewrite undisturbed_app, exec_app.
    change (undisturbed 4) with [Step; Step; Step; Step].
    rewrite (loop_iteration m Hpc Hdead). cbv zeta.
    rewrite IH; cbn [pc self world]; [|reflexivity|now rewrite update_dead].
    destruct (update_configuration (self m)
                (fst (_checker (self m) (checker_calls (world m))))
                (snd (_checker (self m) (checker_calls (world m)))))
      as (E1 & E2 & _ & _).
    rewrite E1, E2.
    cbn [call_checker clock_sleep snd checker_calls slept results_from seq map].
    rewrite feed_cons. f_equal. f_equal; [lia|].
    rewrite <- app_assoc. reflexivity.
Qed.

(** X5. Left alone, the thread of [run] sleeps the initial interval once and
    then alternates checks and sleeps of [interval]: after its first move
    and [k] rounds of four moves, the object is what feeding the next [k]
    results of the checker, in order, makes of it, the checker has been
    invoked [k] more times, the clock has been asked to sleep the initial
    interval followed by [k] times the interval, and the thread is back at
    the loop test. *)
Theorem undisturbed_run :
  forall (s : HealthCheckerThread) (w : World) (k : nat),
    _dead s = false ->
    exec (undisturbed (1 + 4 * k)) (start s w) =
    mkMachine
      (feed s (results_from (_checker s) (checker_calls w) k))
      (mkWorld (checker_calls w + k)
               (slept w ++ _initial_interval s :: repeat (_interval s) k))
      AtLoopTest.
Proof.
  intros s w k Hdead.
  rewrite undisturbed_app, exec_app.
  change (exec (undisturbed 1) (start s w))
    with (mkMachine s (clock_sleep (_initial_interval s) w) AtLoopTest).
  rewrite iterations; [|reflexivity|exact Hdead].
  cbn [self world pc clock_sleep checker_calls slept].
  rewrite <- app_assoc. reflexivity.
Qed.

(** A monitor built with the default initial interval, after three rounds. *)
Lemma undisturbed_run_witness :
  let c : Checker := fun n => (Nat.even n, None) in
  let s := fst (__init__ c 30 None 5 fresh_world) in
  _dead s = false /\
  checker_calls (world (exec (undisturbed 13) (start s fresh_world))) = 3%nat /\
  slept (world (exec (undisturbed 13) (start s fresh_world))) = [60; 30; 30; 30].
Proof.
  intros c s. split; [reflexivity|].
  change 13%nat with (1 + 4 * 3)%nat.
  rewrite (undisturbed_run s fresh_world 3 eq_refl). split; reflexivity.
Defined.

(** ** Who sets the dead signal, and when [run] returns *)

Lemma apply_event_dead_flag (m : Machine) (e : Event) :
  _dead (self (apply_event m e)) = _dead (self m) || is_stop e.
Proof.
  destruct e; cbn [apply_event is_stop].
  - rewrite orb_false_r. unfold thread_step.
    destruct (pc m); cbn [self]; try reflexivity.
    + destruct (_dead (self m)) eqn:D; cbn [self]; exact D.
    + apply update_dead.
  - cbn. symmetry. apply orb_true_r.
Qed.

Lemma apply_event_exit (m : Machine) (e : Event) :
  pc (apply_event m e) = Exited -> pc m = Exited \/ _dead (self m) = true.
Proof.
  destruct e; cbn [apply_event stop_machine pc]; [|now left].
  unfold thread_step. destruct (pc m) eqn:E; cbn [pc]; try discriminate.
  - destruct (_dead (self m)); [now right | discriminate].
  - intros _. now left.
Qed.

Lemma exec_dead_flag (es : list Event) :
  forall m, _dead (self (exec es m)) = _dead (self m) || existsb is_stop es.
Proof.
  induction es as [|e es IH]; intros m.
  - cbn. now rewrite orb_false_r.
  - rewrite exec_cons, IH, apply_event_dead_flag. cbn [existsb].
    now rewrite orb_assoc.
Qed.

Lemma exec_exit (es : list Event) :
  forall m, pc (exec es m) = Exited ->
            pc m = Exited \/ _dead (self (exec es m)) = true.
Proof.
  induction es as [|e es IH]; intros m H.
  - now left.
  - rewrite exec_cons in *. destruct (IH _ H) as [H1|H1]; [|now right].
    destruct (apply_event_exit m e H1) as [H2|H2]; [now left|].
    right. rewrite exec_dead_flag, apply_event_dead_flag, H2. reflexivity.
Qed.

(** X6. Only [stop] sets the dead signal, and [run] returns only after it is
    set: on a constructed monitor, after any schedule, the signal is set
    exactly when the schedule contains a call of [stop], and if the thread
    has returned then [stop] has been called. *)
Theorem run_returns_only_after_stop :
  forall (c : Checker) (interval_secs : Z) (o : option Z) (N : Z) (w : World)
         (es : list Event),
    let m := exec es (launch c interval_secs o N w) in
    _dead (self m) = existsb is_stop es /\
    (pc m = Exited -> existsb is_stop es = true).
Proof.
  intros c i o N w es m. subst m.
  assert (Hd : _dead (self (exec es (launch c i o N w))) = existsb is_stop es).
  { rewrite exec_dead_flag. unfold launch, start. cbn [self].
    rewrite init_dead. reflexivity. }
  split; [exact Hd|].
  intros Hexit. apply exec_exit in Hexit.
  destruct Hexit as [H|H]; [discriminate H | congruence].
Qed.

(** Five undisturbed moves leave the thread running; a stop after the loop
    test lets one more check through before the thread returns. *)
Lemma run_returns_only_after_stop_witness :
  let m0 := launch (fun _ => (true, None)) 30 None 0 fresh_world in
  pc (exec [Step; Step; Step; Step; Step] m0) = AtLoopTest /\
  pc (exec [Step; Step; Stop; Step; Step; Step; Step] m0) = Exited /\
  existsb is_stop [Step; Step; Stop; Step; Step; Step; Step] = true.
Proof.
  intros m0. split; [reflexivity|]. split; [reflexivity|].
  apply (run_returns_only_after_stop (fun _ => (true, None)) 30 None 0
           fresh_world [Step; Step; Stop; Step; Step; Step; Step]).
  reflexivity.
Defined.

(** ** Where the verdict and the reason come from *)

Lemma update_healthy_inv (s : HealthCheckerThread) (h : bool) (r : Reason) :
  _healthy (_maybe_update_failure_count s h r) = true ->
  _healthy s = true /\ _reason (_maybe_update_failure_count s h r) = _reason s.
Proof.
  destruct h; [intros H; split; [exact H | reflexivity]|].
  rewrite update_on_failure. destruct (_ >? _); cbn.
  - discriminate.
  - intros H. split; [exact H | reflexivity].
Qed.

Lemma update_unhealthy_inv (s : HealthCheckerThread) (h : bool) (r : Reason) :
  _healthy (_maybe_update_failure_count s h r) = false ->
  (_healthy s = false /\ _reason (_maybe_update_failure_count s h r) = _reason s)
  \/ (h = false /\ _reason (_maybe_update_failure_count s h r) = r).
Proof.
  destruct h; [intros H; left; split; [exact H | reflexivity]|].
  rewrite update_on_failure. destruct (_ >? _); cbn.
  - intros _. right. split; reflexivity.
  - intros H. left. split; [exact H | reflexivity].
Qed.

(** X7. As long as the verdict is healthy the stored reason is the one the
    constructor put there, in every schedule; for a monitor constructed
    with a positive initial interval that is no reason at all. *)
Theorem healthy_monitor_keeps_initial_reason :
  forall (c : Checker) (interval_secs : Z) (o : option Z) (N : Z) (w : World)
         (es : list Event),
    let s0 := fst (__init__ c interval_secs o N w) in
    let m := exec es (launch c interval_secs o N w) in
    healthy (self m) = true ->
    healthy s0 = true /\ _reason (self m) = _reason s0 /\
    (0 < _initial_interval s0 -> _reason (self m) = None).
Proof.
  intros c i o N w es s0 m.
  assert (G : forall es m0, healthy (self (exec es m0)) = true ->
                            healthy (self m0) = true /\
                            _reason (self (exec es m0)) = _reason (self m0)).
  { clear. induction es as [|e es IH]; intros m0 H; [split; auto|].
    rewrite exec_cons in *. destruct (IH _ H) as [H1 H2].
    rewrite H2. clear IH H H2. unfold healthy in *.
    destruct e; cbn [apply_event] in *; [|split; [exact H1 | reflexivity]].
    unfold thread_step in *.
    destruct (pc m0); cbn [self] in *; try (split; [exact H1 | reflexivity]).
    - destruct (_dead (self m0)); cbn [self] in *; split; auto.
    - apply update_healthy_inv. exact H1. }
  subst s0 m. intros H. destruct (G es _ H) as [H1 H2].
  split; [exact H1|]. split; [exact H2|].
  intros Hpos. rewrite H2. unfold launch, start. cbn [self].
  generalize Hpos. unfold __init__.
  generalize (match o with Some v => v | None => i * 2 end). intros ii.
  destruct (Z.gtb_spec ii 0); unfold call_checker; cbn; [reflexivity | lia].
Qed.

(** A monitor in its grace period that has seen one tolerated failure. *)
Lemma healthy_monitor_keeps_initial_reason_witness :
  let c : Checker := fun _ => (false, Some "slow"%string) in
  let m := exec [Step; Step; Step; Step] (launch c 5 None 1 fresh_world) in
  healthy (self m) = true /\ _reason (self m) = None.
Proof.
  intros c m.
  assert (H : healthy (self m) = true) by reflexivity.
  split; [exact H|].
  apply (healthy_monitor_keeps_initial_reason c 5 None 1 fresh_world
           [Step; Step; Step; Step] H).
  reflexivity.
Defined.

Lemma feed_unhealthy_inv (rs : list CheckResult) :
  forall s, _healthy (feed s rs) = false ->
    (_healthy s = false /\ _reason (feed s rs) = _reason s) \/
    In (false, _reason (feed s rs)) rs.
Proof.
  induction rs as [|[h r] rs IH]; intros s H.
  - left. split; [exact H | reflexivity].
  - rewrite feed_cons in *. cbn [fst snd] in *.
    destruct (IH _ H) as [[H1 H2]|H1]; [|right; now right].
    rewrite H2.
    destruct (update_unhealthy_inv s h r H1) as [[H3 H4]|[H3 H4]].
    + left. split; [exact H3 | exact H4].
    + right. left. rewrite H4, H3. reflexivity.
Qed.

(** X8. An unhealthy verdict always stems from a result that was unhealthy.
    Take a constructed monitor on which [_maybe_update_failure_count] has
    been called, and has returned, for each of the results [rs] in turn.
    If it is unhealthy, then either one of the results in [rs] was
    unhealthy and carried the stored reason, or the constructor ran the
    check itself, that check was unhealthy, and the stored reason is the
    one it returned. *)
Theorem unhealthy_verdict_has_a_failed_check :
  forall (c : Checker) (interval_secs : Z) (o : option Z) (N : Z) (w : World)
         (rs : list CheckResult),
    let s0 := fst (__init__ c interval_secs o N w) in
    healthy (feed s0 rs) = false ->
    In (false, _reason (feed s0 rs)) rs \/
    (_initial_interval s0 <= 0 /\
     c (checker_calls w) = (false, _reason (feed s0 rs))).
Proof.
  intros c i o N w rs s0 H.
  destruct (feed_unhealthy_inv rs s0 H) as [[H1 H2]|H1]; [|now left].
  right. rewrite H2. subst s0. revert H1. unfold __init__.
  generalize (match o with Some v => v | None => i * 2 end). intros ii.
  destruct (Z.gtb_spec ii 0); unfold call_checker; cbn; [discriminate|].
  intros H1. split; [assumption|].
  destruct (c (checker_calls w)) as [b r]. cbn in *. now subst b.
Qed.

(** A monitor that tolerates one failure and is fed two: the stored reason
    is the one the second result carried. *)
Lemma unhealthy_verdict_has_a_failed_check_witness :
  let c : Checker := fun _ => (true, None) in
  let rs := [failure (Some "first"%string); failure (Some "second"%string)] in
  let s := feed (fst (__init__ c 5 None 1 fresh_world)) rs in
  healthy s = false /\ _reason s = Some "second"%string /\
  (In (false, _reason s) rs \/
   (_initial_interval (fst (__init__ c 5 None 1 fresh_world)) <= 0 /\
    c (checker_calls fresh_world) = (false, _reason s))).
Proof.
  intros c rs s.
  assert (H : healthy s = false) by reflexivity.
  split; [exact H|]. split; [reflexivity|].
  exact (unhealthy_verdict_has_a_failed_check c 5 None 1 fresh_world rs H).
Defined.

Lemma exec_keeps_unhealthy (es : list Event) :
  forall m, healthy (self m) = false -> healthy (self (exec es m)) = false.
Proof.
  induction es as [|e es IH]; intros m H; [exact H|].
  rewrite exec_cons. apply IH. now apply apply_event_keeps_unhealthy.
Qed.

(** X9. The check the constructor makes itself is not subject to the
    threshold: with an initial interval of zero or less, a first result
    that is unhealthy makes the monitor unhealthy at once, whatever
    [max_consecutive_failures] is, with the failure counter still at zero,
    and no schedule makes it healthy again. *)
Theorem synchronous_check_ignores_threshold :
  forall (c : Checker) (interval_secs : Z) (o : option Z) (N : Z) (w : World),
    let s0 := fst (__init__ c interval_secs o N w) in
    _initial_interval s0 <= 0 ->
    fst (c (checker_calls w)) = false ->
    healthy s0 = false /\
    _reason s0 = snd (c (checker_calls w)) /\
    _current_consecutive_failures s0 = 0 /\
    _max_consecutive_failures s0 = N /\
    (forall es, healthy (self (exec es (launch c interval_secs o N w))) = false).
Proof.
  intros c i o N w s0 Hle Hfail.
  assert (H0 : healthy s0 = false /\ _reason s0 = snd (c (checker_calls w))).
  { subst s0. revert Hle. unfold healthy, __init__.
    generalize (match o with Some v => v | None => i * 2 end). intros ii.
    destruct (Z.gtb_spec ii 0); unfold call_checker; cbn; [lia|].
    intros _. split; [exact Hfail | reflexivity]. }
  destruct H0 as [H1 H2].
  split; [exact H1|]. split; [exact H2|].
  split; [apply init_counter|]. split; [apply init_max|].
  intros es. apply exec_keeps_unhealthy. exact H1.
Qed.

(** A threshold of one hundred does not help when the check made by the
    constructor fails. *)
Lemma synchronous_check_ignores_threshold_witness :
  let c : Checker := fun n => (negb (Nat.eqb n 0), None) in
  healthy (fst (__init__ c 5 (Some 0) 100 fresh_world)) = false /\
  healthy (self (exec (undisturbed 9) (launch c 5 (Some 0) 100 fresh_world)))
    = false.
Proof.
  intros c.
  destruct (synchronous_check_ignores_threshold c 5 (Some 0) 100 fresh_world)
    as (H1 & _ & _ & _ & H5); [cbn; lia | reflexivity |].
  split; [exact H1 | apply H5].
Defined.

(** X10. Neither the thread of [run] nor [stop] ever changes the checker, the
    two intervals or the threshold of a monitor. *)
Theorem configuration_is_never_changed :
  forall (es : list Event) (m : Machine),
    same_configuration (self (exec es m)) (self m).
Proof.
  induction es as [|e es IH]; intros m; [repeat split|].
  rewrite exec_cons.
  assert (H : same_configuration (self (apply_event m e)) (self m)).
  { destruct e; cbn [apply_event]; [|repeat split].
    unfold thread_step.
    destruct (pc m); cbn [self];
      [ repeat split
      | destruct (_dead (self m)); repeat split
      | repeat split
      | apply update_configuration
      | repeat split
      | repeat split ]. }
  destruct (IH (apply_event m e)) as (A1 & A2 & A3 & A4).
  destruct H as (B1 & B2 & B3 & B4).
  repeat split; congruence.
Qed.

End HealthCheckerExtras.

(** * Properties of the recording driver *)
Module ProxyDriverFacts.
Import ProxyDriver.

Section Recording.
Context {Call : Type}.

Lemma getitem_append_to (d : Dict Call) (k k' : string) (c : Call) :
  getitem (append_to d k c) k' =
  if String.eqb k' k then getitem d k' ++ [c] else getitem d k'.
Proof.
  induction d as [|[k0 v] d IH]; cbn [append_to getitem].
  - destruct (String.eqb k' k); reflexivity.
  - destruct (String.eqb_spec k k0) as [->|Hne]; cbn [getitem].
    + destruct (String.eqb_spec k' k0); reflexivity.
    + destruct (String.eqb_spec k' k0) as [->|Hne'].
      * destruct (String.eqb_spec k0 k); [congruence | reflexivity].
      * exact IH.
Qed.

Lemma invoke_method_calls (self : ProxyDriver Call) (i : Invocation Call) :
  method_calls (invoke self i) =
  append_to (method_calls self) (recorded_under i) (record_of i).
Proof. destruct i; reflexivity. Qed.

Lemma records_under_cons (k : string) (i : Invocation Call)
    (ivs : list (Invocation Call)) :
  records_under k (i :: ivs) =
  (if String.eqb k (recorded_under i) then [record_of i] else [])
  ++ records_under k ivs.
Proof.
  unfold records_under. cbn [filter].
  destruct (String.eqb k (recorded_under i)); reflexivity.
Qed.

(** X11. The driver records every call under the name of the method, in the
    order the calls are made, and a call never touches what is recorded
    under another name: after any series of calls the list under [k] is
    what it was before followed by the records of the calls that go under
    [k]; on a new driver it is exactly those records. *)
Theorem calls_are_recorded_in_order :
  forall (ivs : list (Invocation Call)) (self : ProxyDriver Call) (k : string),
    getitem (method_calls (invoke_all ivs self)) k =
    getitem (method_calls self) k ++ records_under k ivs /\
    getitem (method_calls (invoke_all ivs __init__)) k = records_under k ivs.
Proof.
  assert (G : forall ivs (self : ProxyDriver Call) k,
             getitem (method_calls (invoke_all ivs self)) k =
             getitem (method_calls self) k ++ records_under k ivs).
  { induction ivs as [|i ivs IH]; intros self k.
    - cbn. now rewrite app_nil_r.
    - change (invoke_all (i :: ivs) self) with (invoke_all ivs (invoke self i)).
      rewrite IH, invoke_method_calls, getitem_append_to, records_under_cons.
      destruct (String.eqb k (recorded_under i));
        [rewrite <- app_assoc|]; reflexivity. }
  intros ivs self k. split; [apply G|].
  rewrite G. reflexivity.
Qed.

Lemma invoke_stop_event (self : ProxyDriver Call) (i : Invocation Call) :
  _stop_event (invoke self i) = _stop_event self || is_call_stop i.
Proof.
  destruct i; cbn; [symmetry; apply orb_true_r | now rewrite orb_false_r].
Qed.

(** X12. The stop event is set by [stop] and by nothing else, and it is never
    cleared: after any series of calls it is set exactly when it was set
    before or one of the calls was a call of [stop]. *)
Theorem stop_event_tells_whether_stopped :
  forall (ivs : list (Invocation Call)) (self : ProxyDriver Call),
    _stop_event (invoke_all ivs self) =
    _stop_event self || existsb is_call_stop ivs.
Proof.
  induction ivs as [|i ivs IH]; intros self.
  - cbn. now rewrite orb_false_r.
  - change (invoke_all (i :: ivs) self) with (invoke_all ivs (invoke self i)).
    rewrite IH, invoke_stop_event. cbn [existsb]. now rewrite orb_assoc.
Qed.

Lemma keys_append_to (d : Dict Call) (k : string) (c : Call) :
  keys (append_to d k c) =
  if existsb (String.eqb k) (keys d) then keys d else keys d ++ [k].
Proof.
  induction d as [|[k0 v] d IH]; [reflexivity|].
  cbn [append_to keys map fst existsb].
  destruct (String.eqb k k0); cbn [orb keys map fst]; [reflexivity|].
  fold (keys d). fold (keys (append_to d k c)). rewrite IH.
  destruct (existsb (String.eqb k) (keys d)); reflexivity.
Qed.

Lemma existsb_eqb_In (k : string) (l : list string) :
  existsb (String.eqb k) l = true <-> In k l.
Proof.
  rewrite existsb_exists. split.
  - intros (x & Hx & E). apply String.eqb_eq in E. now subst.
  - intros H. exists k. split; [exact H | apply String.eqb_refl].
Qed.

(** X13. The dictionary holds one entry per method name that has been
    called and no other: after any series of calls on a new driver no key
    occurs twice, and a name is a key exactly when some call went under
    it. *)
Theorem one_entry_per_called_method :
  forall (ivs : list (Invocation Call)),
    let d := method_calls (invoke_all ivs __init__) in
    NoDup (keys d) /\
    (forall k, In k (keys d) <-> exists i, In i ivs /\ recorded_under i = k).
Proof.
  assert (G : forall ivs (self : ProxyDriver Call),
             NoDup (keys (method_calls self)) ->
             NoDup (keys (method_calls (invoke_all ivs self))) /\
             (forall k, In k (keys (method_calls (invoke_all ivs self))) <->
                        In k (keys (method_calls self)) \/
                        exists i, In i ivs /\ recorded_under i = k)).
  { induction ivs as [|i ivs IH]; intros self Hnd.
    - split; [exact Hnd|]. intros k. split; [now left|].
      intros [H|(i & [] & _)]. exact H.
    - change (invoke_all (i :: ivs) self) with (invoke_all ivs (invoke self i)).
      assert (Hk : forall k, In k (keys (method_calls (invoke self i))) <->
                             In k (keys (method_calls self)) \/ recorded_under i = k).
      { intros k. rewrite invoke_method_calls, keys_append_to.
        destruct (existsb (String.eqb (recorded_under i)) (keys (method_calls self)))
          eqn:E.
        - apply existsb_eqb_In in E. split; [now left|].
          intros [H|<-]; assumption.
        - rewrite in_app_iff. cbn [In]. tauto. }
      assert (Hnd' : NoDup (keys (method_calls (invoke self i)))).
      { rewrite invoke_method_calls, keys_append_to.
        destruct (existsb (String.eqb (recorded_under i)) (keys (method_calls self)))
          eqn:E; [exact Hnd|].
        apply NoDup_app; [exact Hnd | repeat constructor; intros [] |].
        intros x Hx [<-|[]].
        apply existsb_eqb_In in Hx. congruence. }
      destruct (IH _ Hnd') as [I1 I2]. split; [exact I1|].
      intros k. rewrite I2, Hk. cbn [In]. split.
      + intros [[H|H]|(j & Hj & Ej)]; [now left | right | right].
        * exists i. auto.
        * exists j. auto.
      + intros [H|(j & [<-|Hj] & Ej)]; [now left; left | left; now right | right].
        exists j. auto. }
  intros ivs d. subst d.
  destruct (G ivs __init__) as [G1 G2]; [constructor|].
  split; [exact G1|]. intros k. rewrite G2. cbn [__init__ method_calls keys map In].
  tauto.
Qed.

End Recording.

End ProxyDriverFacts.

(** * Properties of the slow runner *)
Module SlowRunnerFacts.
Import SlowRunner.

Lemma perform_cons (a : Action) (acts : list Action) (r : SlowInitializingTaskRunner) :
  perform (a :: acts) r = perform acts (act r a).
Proof. reflexivity. Qed.

(** X14. [initialize] cannot get past [_init_start]: in every interleaving of
    calls of [initialize], moves of its thread and the test setting
    [_init_start], the runner reports itself initialized only if
    [_init_start] has been set, [_init_done] is set only once the runner
    reports itself initialized, and [_init_start] is set exactly when the
    test has set it. *)
Theorem initialization_waits_for_the_test :
  forall (acts : list Action),
    let r := perform acts __init__ in
    _init_start r = existsb is_set_init_start acts /\
    (is_initialized r = true -> existsb is_set_init_start acts = true) /\
    (_init_done r = true -> is_initialized r = true) /\
    (place r = Returned <-> _init_done r = true).
Proof.
  assert (G : forall acts r,
             (match place r with
              | NotCalled | Waiting => is_initialized r = false /\ _init_done r = false
              | Marking => _init_start r = true /\ is_initialized r = false /\
                           _init_done r = false
              | Signalling => _init_start r = true /\ is_initialized r = true /\
                              _init_done r = false
              | Returned => _init_start r = true /\ is_initialized r = true /\
                            _init_done r = true
              end) ->
             let r' := perform acts r in
             _init_start r' = _init_start r || existsb is_set_init_start acts /\
             (is_initialized r' = true -> _init_start r' = true) /\
             (_init_done r' = true -> is_initialized r' = true) /\
             (place r' = Returned <-> _init_done r' = true)).
  { induction acts as [|a acts IH]; intros r Hr.
    - cbn. rewrite orb_false_r. destruct r as [i s d p]. cbn in *.
      destruct p; intuition (subst; try congruence).
    - rewrite perform_cons. cbv zeta.
      assert (Hr' : match place (act r a) with
              | NotCalled | Waiting =>
                  is_initialized (act r a) = false /\ _init_done (act r a) = false
              | Marking => _init_start (act r a) = true /\
                           is_initialized (act r a) = false /\
                           _init_done (act r a) = false
              | Signalling => _init_start (act r a) = true /\
                              is_initialized (act r a) = true /\
                              _init_done (act r a) = false
              | Returned => _init_start (act r a) = true /\
                            is_initialized (act r a) = true /\
                            _init_done (act r a) = true
              end).
      { destruct r as [i s d p]. cbn in *.
        destruct a, p; cbn; try exact Hr; try tauto;
          destruct s; cbn; tauto. }
      destruct (IH _ Hr') as (I1 & I2 & I3 & I4).
      split; [|split; [exact I2 | split; [exact I3 | exact I4]]].
      rewrite I1. cbn [existsb]. rewrite orb_assoc. f_equal.
      destruct r as [i s d p].
      destruct a, p; cbn; try (now rewrite orb_false_r);
        try (symmetry; apply orb_true_r);
        destruct s; reflexivity. }
  intros acts r. subst r.
  destruct (G acts __init__) as (G1 & G2 & G3 & G4); [split; reflexivity|].
  cbn [__init__ _init_start orb] in G1.
  split; [exact G1|]. split; [|split; [exact G3 | exact G4]].
  intros H. rewrite <- G1. apply G2. exact H.
Qed.

Lemma act_remaining (r : SlowInitializingTaskRunner) (a : Action) :
  _init_start r = true ->
  _init_start (act r a) = true /\
  (place r <> NotCalled -> place (act r a) <> NotCalled) /\
  (place r <> NotCalled ->
   remaining (place (act r a)) =
   remaining (place r) - (if is_advance a then 1 else 0))%nat.
Proof.
  destruct r as [i s d p]. cbn. intros ->.
  destruct a, p; cbn; repeat split; try congruence; try (intros H; now elim H).
Qed.

(** X15. Once [initialize] has been called and [_init_start] is set, nothing
    can hold the initialization up: whatever else happens in between, as
    soon as its thread has made three moves [initialize] has returned. *)
Theorem initialization_completes_once_released :
  forall (acts : list Action) (r : SlowInitializingTaskRunner),
    place r <> NotCalled ->
    _init_start r = true ->
    (3 <= advances acts)%nat ->
    place (perform acts r) = Returned.
Proof.
  assert (G : forall acts r,
             place r <> NotCalled -> _init_start r = true ->
             (remaining (place (perform acts r)) =
              remaining (place r) - advances acts)%nat /\
             place (perform acts r) <> NotCalled).
  { induction acts as [|a acts IH]; intros r Hp Hs.
    - cbn. split; [lia | exact Hp].
    - rewrite perform_cons.
      destruct (act_remaining r a Hs) as (A1 & A2 & A3).
      destruct (IH (act r a) (A2 Hp) A1) as [I1 I2].
      split; [|exact I2]. rewrite I1, (A3 Hp).
      unfold advances. cbn [filter]. destruct (is_advance a); cbn [List.length]; lia. }
  intros acts r Hp Hs Hn.
  destruct (G acts r Hp Hs) as [G1 G2].
  assert (Hr : (remaining (place r) <= 3)%nat) by (destruct (place r); cbn; lia).
  destruct (place (perform acts r)); cbn in G1; try lia; [now elim G2 | reflexivity].
Qed.

(** The schedule of [test_killTask_during_runner_initialize]: initialize is
    called, the test sets [_init_start], the thread runs to the end. *)
Lemma initialization_completes_once_released_witness :
  let r := perform [CallInitialize; Advance; SetInitStart] __init__ in
  place r <> NotCalled /\ _init_start r = true /\
  is_initialized r = false /\
  place (perform [Advance; Advance; Advance] r) = Returned.
Proof.
  intros r.
  assert (Hp : place r <> NotCalled) by discriminate.
  split; [exact Hp|]. split; [reflexivity|]. split; [reflexivity|].
  apply (initialization_completes_once_released [Advance; Advance; Advance] r Hp);
    [reflexivity | cbn; lia].
Defined.

End SlowRunnerFacts.
